(** * Cover art generator: grid geometry, cover resolution, placement, stats

    A shallow embedding of [listenbrainz/art/cover_art_generator.py] and the
    properties of its natural-language specification.

    Modelling conventions.
    - Python [int] is [Z]; [//] and [%] are [Z.div] and [Z.modulo] (both
      floor-based, as in Python); a zero divisor raises.
    - Python [str] is [string], a sequence of bytes; addresses and
      identifiers are ASCII, so only ASCII white space and digits are
      recognised by [strip] and [int]; the interpreter's configurable limit
      on the number of digits [int] accepts is left out.
    - [None], integers and strings stored in dictionaries are [pyval];
      a dictionary with string keys is a [gmap string pyval].
    - A raised exception is the [Raise] case of [result].
    - The list [covers] is mutated by [covers.pop(0)]: functions that pop
      take the list and return what is left of it. For what two calls share,
      the method is also written as a program on a [world] of objects (the
      instance, the class attribute, the list objects), statement by
      statement, and related to the functions on lists. *)

From Stdlib Require Import ZArith String Ascii List Lia DecimalString Permutation.
From Stdlib Require Import DecimalPos.
From stdpp Require Import gmap strings list.

Open Scope string_scope.
Open Scope Z_scope.

(** ** Python values, exceptions *)

Inductive pyval : Type :=
| PyNone
| PyInt (n : Z)
| PyStr (s : string).

#[global] Instance pyval_eq_dec : EqDecision pyval.
Proof. solve_decision. Defined.

Inductive exn : Type :=
| ValueError (msg : string)
| KeyError (key : pyval)
| IndexError (msg : string)
| ZeroDivisionError
| UnboundLocalError (name : string).

Inductive result (A : Type) : Type :=
| Ok (a : A)
| Raise (e : exn).
Arguments Ok {A} a.
Arguments Raise {A} e.

Definition rbind {A B} (r : result A) (k : A -> result B) : result B :=
  match r with
  | Ok a => k a
  | Raise e => Raise e
  end.

Notation "'let*' x ':=' r 'in' k" := (rbind r (fun x => k))
  (at level 10, x pattern, r at level 200, k at level 200).

(** [str(v)] as used by f-strings. *)
Definition py_str (v : pyval) : string :=
  match v with
  | PyNone => "None"
  | PyInt n => NilZero.string_of_int (Z.to_int n)
  | PyStr s => s
  end.

(** [d[k]]: [KeyError] when the key is absent. *)
Definition py_getitem (d : gmap string pyval) (k : string) : result pyval :=
  match d !! k with
  | Some v => Ok v
  | None => Raise (KeyError (PyStr k))
  end.

(** [d.get(k)]: [None] when the key is absent. *)
Definition py_get (d : gmap string pyval) (k : string) : pyval :=
  default PyNone (d !! k).

(** [l[i]] for a list: negative indices count from the end. *)
Definition py_list_index {A} (l : list A) (i : Z) : result A :=
  let n := Z.of_nat (length l) in
  let j := if i <? 0 then i + n else i in
  if (j <? 0) || (n <=? j) then Raise (IndexError "list index out of range")
  else match l !! Z.to_nat j with
       | Some a => Ok a
       | None => Raise (IndexError "list index out of range")
       end.

(** ** Strings: [split(",")], [strip()], [int()] *)

(** [s.split(",")]: always at least one piece. *)
Fixpoint split_comma (cur : list ascii) (s : list ascii) : list (list ascii) :=
  match s with
  | [] => [rev cur]
  | c :: s' =>
      if Ascii.eqb c ","%char then rev cur :: split_comma [] s'
      else split_comma (c :: cur) s'
  end.

Definition py_split_comma (s : string) : list string :=
  map string_of_list_ascii (split_comma [] (list_ascii_of_string s)).

(** White space of [str.strip()] and [int()] in the ASCII range:
    TAB, LF, VT, FF, CR, FS, GS, RS, US and the space. *)
Definition py_isspace (c : ascii) : bool :=
  let n := Z.of_N (N_of_ascii c) in
  ((9 <=? n) && (n <=? 13)) || ((28 <=? n) && (n <=? 32)).

Fixpoint lstrip (s : list ascii) : list ascii :=
  match s with
  | c :: s' => if py_isspace c then lstrip s' else s
  | [] => []
  end.

Definition py_strip (s : string) : string :=
  string_of_list_ascii (rev (lstrip (rev (lstrip (list_ascii_of_string s))))).

Definition digit_value (c : ascii) : option Z :=
  let n := Z.of_N (N_of_ascii c) in
  if (48 <=? n) && (n <=? 57) then Some (n - 48) else None.

(** Digits of a decimal literal; a single underscore may separate two
    digits. [after_digit] tells whether the previous character was a digit. *)
Fixpoint int_digits (acc : Z) (after_digit : bool) (s : list ascii) : option Z :=
  match s with
  | [] => if after_digit then Some acc else None
  | c :: s' =>
      if Ascii.eqb c "_"%char then
        if after_digit then int_digits acc false s' else None
      else
        match digit_value c with
        | Some d => int_digits (acc * 10 + d) true s'
        | None => None
        end
  end.

(** [int(s)]: [None] stands for [ValueError]. *)
Definition py_int (s : string) : option Z :=
  match list_ascii_of_string (py_strip s) with
  | c :: s' =>
      if Ascii.eqb c "-"%char then Z.opp <$> int_digits 0 false s'
      else if Ascii.eqb c "+"%char then int_digits 0 false s'
      else int_digits 0 false (c :: s')
  | [] => None
  end.

(** ** The generator *)

Definition MIN_IMAGE_SIZE : Z := 128.
Definition MAX_IMAGE_SIZE : Z := 1024.
Definition MIN_DIMENSION : Z := 2.
Definition MAX_DIMENSION : Z := 5.
Definition NUMBER_OF_STATS : nat := 100.

Definition CAA_MISSING_IMAGE : string :=
  "https://listenbrainz.org/static/img/cover-art-placeholder.jpg".

Definition GRID_TILE_DESIGNS : gmap Z (list (list string)) :=
  {[ 2 := [ ["0"; "1"; "2"; "3"] ];
     3 := [ ["0"; "1"; "2"; "3"; "4"; "5"; "6"; "7"; "8"];
            ["0,1,3,4"; "2"; "5"; "6"; "7"; "8"];
            ["0"; "1"; "2"; "3"; "4,5,7,8"; "6"] ];
     4 := [ ["0"; "1"; "2"; "3"; "4"; "5"; "6"; "7"; "8"; "9"; "10"; "11";
             "12"; "13"; "14"; "15"];
            ["5,6,9,10"; "0"; "1"; "2"; "3"; "4"; "7"; "8"; "11"; "12"; "13";
             "14"; "15"];
            ["0,1,4,5"; "10,11,14,15"; "2"; "3"; "6"; "7"; "8"; "9"; "12"; "13"];
            ["0,1,2,4,5,6,8,9,10"; "3"; "7"; "11"; "12"; "13"; "14"; "15"] ];
     5 := [ ["0"; "1"; "2"; "3"; "4"; "5"; "6"; "7"; "8"; "9"; "10"; "11";
             "12"; "13"; "14"; "15"; "16"; "17"; "18"; "19"; "20"; "21"; "22";
             "23"; "24"];
            ["0,1,2,5,6,7,10,11,12"; "3,4,8,9"; "15,16,20,21"; "13"; "14";
             "17"; "18"; "19"; "22"; "23"; "24"] ] ]}.

Definition time_range_to_english : gmap string string :=
  {[ "week" := "last week";
     "month" := "last month";
     "quarter" := "last quarter";
     "half_yearly" := "last 6 months";
     "year" := "last year";
     "all_time" := "of all time";
     "this_week" := "this week";
     "this_month" := "this month";
     "this_year" := "this year" ]}.

Record CoverArtGenerator : Type := {
  mb_db_connection_str : string;
  dimension : Z;
  image_size : Z;
  background : string;
  skip_missing : bool;
  show_caa_image_for_missing_covers : bool;
  tile_size : Z
}.

(** [__init__]: [image_size // dimension] raises for a zero dimension. *)
Definition init (conn : string) (d size : Z) (bg : string) (skip show : bool)
  : result CoverArtGenerator :=
  if d =? 0 then Raise ZeroDivisionError
  else Ok {| mb_db_connection_str := conn;
             dimension := d;
             image_size := size;
             background := bg;
             skip_missing := skip;
             show_caa_image_for_missing_covers := show;
             tile_size := size / d |}.

(** ** Geometry *)

Abbreviation box := (Z * Z * Z * Z)%type.

(** [get_tile_position]: [None] stands for the sentinel [(None, None)]. *)
Definition get_tile_position (g : CoverArtGenerator) (tile : Z) : option box :=
  if (tile <? 0) || (dimension g * dimension g <=? tile) then None
  else
    let x := tile mod dimension g in
    let y := tile / dimension g in
    let x1 := x * tile_size g in
    let y1 := y * tile_size g in
    let x2 := (x + 1) * tile_size g in
    let y2 := (y + 1) * tile_size g in
    let x2 := if x =? dimension g - 1 then image_size g - 1 else x2 in
    let y2 := if y =? dimension g - 1 then image_size g - 1 else y2 in
    Some (x1, y1, x2, y2).

(** The [try] block of [calculate_bounding_box]: split, strip and convert
    every token; [None] when a conversion raises [ValueError]. *)
Definition parse_address (address : string) : option (list Z) :=
  mapM (fun t => py_int (py_strip t)) (py_split_comma address).

Definition tile_in_range (g : CoverArtGenerator) (tile : Z) : bool :=
  negb ((tile <? 0) || (dimension g * dimension g <=? tile)).

(** The [enumerate] loop; [bb] holds [bb_x1, bb_y1, bb_x2, bb_y2] once they
    are bound. *)
Fixpoint bounding_box_loop (g : CoverArtGenerator) (i : nat) (tiles : list Z)
    (bb : option box) : result box :=
  match tiles with
  | [] =>
      match bb with
      | Some b => Ok b
      | None => Raise (UnboundLocalError "bb_x1")
      end
  | tile :: tiles' =>
      match get_tile_position g tile with
      | None => Raise (ValueError "not enough values to unpack (expected 4, got 2)")
      | Some (x1, y1, x2, y2) =>
          match i with
          | O => bounding_box_loop g (S i) tiles' (Some (x1, y1, x2, y2))
          | S _ =>
              match bb with
              | None => Raise (UnboundLocalError "bb_x1")
              | Some (bb_x1, bb_y1, bb_x2, bb_y2) =>
                  let bb_x1 := Z.min bb_x1 x1 in
                  let bb_y1 := Z.min bb_y1 y1 in
                  let bb_x1 := Z.min bb_x1 x2 in
                  let bb_y1 := Z.min bb_y1 y2 in
                  let bb_x2 := Z.max bb_x2 x1 in
                  let bb_y2 := Z.max bb_y2 y1 in
                  let bb_x2 := Z.max bb_x2 x2 in
                  let bb_y2 := Z.max bb_y2 y2 in
                  bounding_box_loop g (S i) tiles' (Some (bb_x1, bb_y1, bb_x2, bb_y2))
              end
          end
      end
  end.

(** [calculate_bounding_box]: [Ok None] stands for the tuple of four [None]. *)
Definition calculate_bounding_box (g : CoverArtGenerator) (address : string)
  : result (option box) :=
  match parse_address address with
  | None => Ok None
  | Some tiles =>
      if forallb (tile_in_range g) tiles then
        let* b := bounding_box_loop g O tiles None in Ok (Some b)
      else Ok None
  end.

(** ** Cover resolution *)

(** [resolve_cover_art]: [None] for an unsupported thumbnail size. *)
Definition resolve_cover_art (caa_id caa_release_mbid : pyval) (cover_art_size : Z)
  : option string :=
  if negb ((cover_art_size =? 250) || (cover_art_size =? 500)) then None
  else Some ("https://archive.org/download/mbid-" +:+ py_str caa_release_mbid
             +:+ "/mbid-" +:+ py_str caa_release_mbid
             +:+ "-" +:+ py_str caa_id
             +:+ "_thumb" +:+ py_str (PyInt cover_art_size) +:+ ".jpg").

(** ** Placement *)

Abbreviation cover := (gmap string pyval).

(** The dictionary appended to [images]. *)
Record image : Type := {
  x : Z;
  y : Z;
  width : Z;
  height : Z;
  url : string;
  entity_mbid : pyval;
  title : pyval;
  artist : pyval
}.

#[global] Instance image_eq_dec : EqDecision image.
Proof. solve_decision. Defined.

(** The choice of [addrs] at the head of [generate_from_caa_ids]. *)
Definition select_addrs (g : CoverArtGenerator) (tile_addrs : option (list string))
    (layout : option Z) : result (list string) :=
  let catalog (i : Z) :=
    match GRID_TILE_DESIGNS !! dimension g with
    | Some designs => py_list_index designs i
    | None => Raise (KeyError (PyInt (dimension g)))
    end in
  match layout with
  | Some i => catalog i
  | None =>
      match tile_addrs with
      | None => catalog 0
      | Some addrs => Ok addrs
      end
  end.

(** First loop: the bounding box of every address, appended to [tiles]. *)
Fixpoint bounding_boxes (g : CoverArtGenerator) (addrs : list string)
    (tiles : list box) : result (list box) :=
  match addrs with
  | [] => Ok tiles
  | addr :: addrs' =>
      let* bb := calculate_bounding_box g addr in
      match bb with
      | None => Raise (ValueError ("Invalid address " +:+ addr +:+ " specified."))
      | Some b => bounding_boxes g addrs' (tiles ++ [b])
      end
  end.

(** The [while True] loop run for one tile. It pops from the front of
    [covers] and returns the [url] and [cover] bound when it leaves the loop,
    next to what is left of [covers]. An empty list is the caught
    [IndexError]; [cover] is then the empty dictionary. *)
Fixpoint next_cover (g : CoverArtGenerator) (cover_art_size : Z) (covers : list cover)
  : result (option string * cover) * list cover :=
  match covers with
  | [] =>
      (Ok (if show_caa_image_for_missing_covers g then Some CAA_MISSING_IMAGE
           else None, ∅), [])
  | c :: covers' =>
      match py_getitem c "caa_id" with
      | Raise e => (Raise e, covers')
      | Ok PyNone =>
          if skip_missing g then next_cover g cover_art_size covers'
          else if show_caa_image_for_missing_covers g
               then (Ok (Some CAA_MISSING_IMAGE, c), covers')
               else (Ok (None, c), covers')
      | Ok caa_id =>
          match py_getitem c "caa_release_mbid" with
          | Raise e => (Raise e, covers')
          | Ok caa_release_mbid =>
              (Ok (resolve_cover_art caa_id caa_release_mbid cover_art_size, c),
               covers')
          end
      end
  end.

Definition make_image (b : box) (u : string) (c : cover) : image :=
  let '(x1, y1, x2, y2) := b in
  {| x := x1;
     y := y1;
     width := x2 - x1;
     height := y2 - y1;
     url := u;
     entity_mbid := py_get c "entity_mbid";
     title := py_get c "title";
     artist := py_get c "artist" |}.

(** Second loop: one pass of [next_cover] per tile. *)
Fixpoint place_images (g : CoverArtGenerator) (cover_art_size : Z) (tiles : list box)
    (covers : list cover) (images : list image)
  : result (list image) * list cover :=
  match tiles with
  | [] => (Ok images, covers)
  | b :: tiles' =>
      match next_cover g cover_art_size covers with
      | (Raise e, covers') => (Raise e, covers')
      | (Ok (Some u, c), covers') =>
          place_images g cover_art_size tiles' covers' (images ++ [make_image b u c])
      | (Ok (None, _), covers') =>
          place_images g cover_art_size tiles' covers' images
      end
  end.

(** [generate_from_caa_ids]: the result and the list [covers] as the call
    leaves it. *)
Definition generate_from_caa_ids (g : CoverArtGenerator) (covers : list cover)
    (tile_addrs : option (list string)) (layout : option Z) (cover_art_size : Z)
  : result (list image) * list cover :=
  match select_addrs g tile_addrs layout with
  | Raise e => (Raise e, covers)
  | Ok addrs =>
      match bounding_boxes g addrs [] with
      | Raise e => (Raise e, covers)
      | Ok tiles => place_images g cover_art_size tiles covers []
      end
  end.

(** ** The call as a program on shared objects *)

(** What a call of [generate_from_caa_ids] can reach besides its locals: the
    attributes of the instance [self], the class attribute
    [GRID_TILE_DESIGNS], and the list objects that hold candidates, each
    under its identity. Any of them could be changed by a statement of the
    method. *)
Record world : Type := {
  w_self : CoverArtGenerator;
  w_designs : gmap Z (list (list string));
  w_lists : gmap nat (list cover)
}.

(** A statement run in a world: its result and the world it leaves. [None]
    stands for what is not a run of the program: a list identity without
    object, or the bound of the loop below used up. *)
Definition run (A : Type) : Type := world -> option (result A * world).

Definition run_ret {A} (a : A) : run A := fun w => Some (Ok a, w).

Definition run_raise {A} (e : exn) : run A := fun w => Some (Raise e, w).

Definition run_lift {A} (r : result A) : run A := fun w => Some (r, w).

Definition run_bind {A B} (m : run A) (k : A -> run B) : run B :=
  fun w =>
    match m w with
    | Some (Ok a, w') => k a w'
    | Some (Raise e, w') => Some (Raise e, w')
    | None => None
    end.

Notation "'step' x '<-' m ';' k" := (run_bind m (fun x => k))
  (at level 10, x pattern, m at level 200, k at level 200).

(** Reading an attribute of [self], and the class attribute. *)
Definition read_self : run CoverArtGenerator := fun w => Some (Ok (w_self w), w).

Definition read_designs : run (gmap Z (list (list string))) :=
  fun w => Some (Ok (w_designs w), w).

(** The world with the list object [covers] replaced. *)
Definition set_list (covers : nat) (content : list cover) (w : world) : world :=
  {| w_self := w_self w;
     w_designs := w_designs w;
     w_lists := <[covers := content]> (w_lists w) |}.

(** [covers.pop(0)] inside the [try]: the first element, removed from the
    object; [None] for the caught [IndexError] of an empty list. *)
Definition pop_first (covers : nat) : run (option cover) :=
  fun w =>
    match w_lists w !! covers with
    | Some (c :: rest) => Some (Ok (Some c), set_list covers rest w)
    | Some [] => Some (Ok None, w)
    | None => None
    end.

(** The choice of [addrs], reading [self.GRID_TILE_DESIGNS] and
    [self.dimension]. *)
Definition select_addrs_run (tile_addrs : option (list string)) (layout : option Z)
  : run (list string) :=
  let catalog (i : Z) : run (list string) :=
    step designs <- read_designs;
    step g <- read_self;
    match designs !! dimension g with
    | Some layouts => run_lift (py_list_index layouts i)
    | None => run_raise (KeyError (PyInt (dimension g)))
    end in
  match layout with
  | Some i => catalog i
  | None =>
      match tile_addrs with
      | None => catalog 0
      | Some addrs => run_ret addrs
      end
  end.

(** First loop: [self.calculate_bounding_box(addr)] reads the attributes of
    [self] at every turn. The loop body changes no list, so the addresses
    are those the loop started with. *)
Fixpoint bounding_boxes_run (addrs : list string) (tiles : list box)
  : run (list box) :=
  match addrs with
  | [] => run_ret tiles
  | addr :: addrs' =>
      step g <- read_self;
      step bb <- run_lift (calculate_bounding_box g addr);
      match bb with
      | None => run_raise (ValueError ("Invalid address " +:+ addr +:+ " specified."))
      | Some b => bounding_boxes_run addrs' (tiles ++ [b])
      end
  end.

(** The [while True] loop of one tile, one [pop] per turn. Every turn that
    does not leave the loop has removed a candidate, so [bound] turns suffice
    when [bound] exceeds the length of the list. *)
Fixpoint next_cover_run (bound : nat) (covers : nat) (cover_art_size : Z)
  : run (option string * cover) :=
  match bound with
  | O => fun _ => None
  | S bound' =>
      step popped <- pop_first covers;
      match popped with
      | None =>
          step g <- read_self;
          run_ret (if show_caa_image_for_missing_covers g
                   then Some CAA_MISSING_IMAGE else None, ∅)
      | Some c =>
          step caa_id <- run_lift (py_getitem c "caa_id");
          match caa_id with
          | PyNone =>
              step g <- read_self;
              if skip_missing g then next_cover_run bound' covers cover_art_size
              else
                step g <- read_self;
                if show_caa_image_for_missing_covers g
                then run_ret (Some CAA_MISSING_IMAGE, c)
                else run_ret (None, c)
          | _ =>
              step caa_id <- run_lift (py_getitem c "caa_id");
              step caa_release_mbid <- run_lift (py_getitem c "caa_release_mbid");
              run_ret (resolve_cover_art caa_id caa_release_mbid cover_art_size, c)
          end
      end
  end.

(** The bound handed to the loop of a tile: the number of candidates the
    list holds when the loop starts. It is a device of the model, the method
    does not read the length. *)
Definition loop_bound (covers : nat) : run nat :=
  fun w =>
    match w_lists w !! covers with
    | Some content => Some (Ok (length content), w)
    | None => None
    end.

(** Second loop. *)
Fixpoint place_images_run (tiles : list box) (covers : nat) (cover_art_size : Z)
    (images : list image) : run (list image) :=
  match tiles with
  | [] => run_ret images
  | b :: tiles' =>
      step n <- loop_bound covers;
      step found <- next_cover_run (S n) covers cover_art_size;
      match found with
      | (Some u, c) =>
          place_images_run tiles' covers cover_art_size (images ++ [make_image b u c])
      | (None, _) => place_images_run tiles' covers cover_art_size images
      end
  end.

(** [generate_from_caa_ids], called with the identity of the list
    [covers]. *)
Definition generate_from_caa_ids_run (covers : nat)
    (tile_addrs : option (list string)) (layout : option Z) (cover_art_size : Z)
  : run (list image) :=
  step addrs <- select_addrs_run tile_addrs layout;
  step tiles <- bounding_boxes_run addrs [];
  place_images_run tiles covers cover_art_size [].

(** ** User statistics *)

Abbreviation stat_record := (gmap string pyval).

(** What [db_stats.get] returns: [stats.data.__root__] and [stats.count]. *)
Record user_stats : Type := {
  data : list stat_record;
  count : Z
}.

(** The metadata dictionary of an artist stats cover. *)
Record metadata : Type := {
  user_name : string;
  date : string;
  time_range : string;
  num_artists : Z
}.

(** Calls made to the user store and to the stats store, and the query of
    the artwork store made through a database connection. *)
Inductive store_call : Type :=
| GetByMbId (name : string)
| StatsGet (user_id : pyval) (entity range : string)
| GetCaaIds (connection : string) (release_mbids : list string).

(** Computations that may raise and that log their store calls. *)
Definition io (A : Type) : Type := list store_call -> result A * list store_call.

Definition io_ret {A} (a : A) : io A := fun log => (Ok a, log).

Definition io_raise {A} (e : exn) : io A := fun log => (Raise e, log).

Definition io_bind {A B} (m : io A) (k : A -> io B) : io B :=
  fun log =>
    match m log with
    | (Ok a, log') => k a log'
    | (Raise e, log') => (Raise e, log')
    end.

Definition io_lift {A} (r : result A) : io A := fun log => (r, log).

Notation "'do' x '<-' m ';' k" := (io_bind m (fun x => k))
  (at level 10, x pattern, m at level 200, k at level 200).

(** The stub returned for one user name. *)
Definition huhridge_artists : list stat_record :=
  [
    {[ "artist_mbid" := PyStr "e520459c-dff4-491d-a6e4-c97be35e0044";
       "artist_name" := PyStr "Frank Ocean";
       "listen_count" := PyInt 20 ]};
    {[ "artist_mbid" := PyStr "875203e1-8e58-4b86-8dcb-7190faf411c5";
       "artist_name" := PyStr "J. Cole";
       "listen_count" := PyInt 13 ]};
    {[ "artist_mbid" := PyStr "e636b15f-00c5-45fd-9c33-845a08c8f92d";
       "artist_name" := PyStr "brakence";
       "listen_count" := PyInt 10 ]};
    {[ "artist_mbid" := PyStr "9fff2f8a-21e6-47de-a2b8-7f449929d43f";
       "artist_name" := PyStr "Drake";
       "listen_count" := PyInt 9 ]};
    {[ "artist_mbid" := PyStr "ab1a3f85-e0ea-470a-af5c-175447ae774c";
       "artist_name" := PyStr "underscores";
       "listen_count" := PyInt 8 ]};
    {[ "artist_mbid" := PyStr "aea4c9b9-9f8d-49dc-b2ca-57d6f26e8634";
       "artist_name" := PyStr "Khruangbin";
       "listen_count" := PyInt 8 ]};
    {[ "artist_mbid" := PyStr "3fd78e94-efeb-43a1-bc19-ad2dd1afbd5a";
       "artist_name" := PyStr "EDEN";
       "listen_count" := PyInt 8 ]};
    {[ "artist_mbid" := PyStr "f6beac20-5dfe-4d1f-ae02-0b0a740aafd6";
       "artist_name" := PyStr "Tyler, the Creator";
       "listen_count" := PyInt 7 ]};
    {[ "artist_mbid" := PyStr "260b6184-8828-48eb-945c-bc4cb6fc34ca";
       "artist_name" := PyStr "Charli XCX";
       "listen_count" := PyInt 7 ]};
    {[ "artist_mbid" := PyStr "f1660eaa-929f-48d4-9926-9aaa61afa52f";
       "artist_name" := PyStr "Teezo Touchdown";
       "listen_count" := PyInt 6 ]};
    {[ "artist_mbid" := PyStr "ab4e7869-86f5-455e-b52c-c89d7664c07b";
       "artist_name" := PyStr "Rainbow Kitten Surprise";
       "listen_count" := PyInt 6 ]};
    {[ "artist_mbid" := PyStr "071409d0-ce21-4f03-a111-aec4dbc1590d";
       "artist_name" := PyStr "Erika de Casier";
       "listen_count" := PyInt 6 ]};
    {[ "artist_mbid" := PyStr "381086ea-f511-4aba-bdf9-71c753dc5077";
       "artist_name" := PyStr "Kendrick Lamar";
       "listen_count" := PyInt 5 ]};
    {[ "artist_mbid" := PyStr "8dc08b1f-e393-4f85-a5dd-300f7693a8b8";
       "artist_name" := PyStr "James Blake";
       "listen_count" := PyInt 5 ]};
    {[ "artist_mbid" := PyStr "null";
       "artist_name" := PyStr "¥$, Kanye West, Ty Dolla $ign";
       "listen_count" := PyInt 4 ]};
    {[ "artist_mbid" := PyStr "164f0d73-1234-4e2c-8743-d77bf2191051";
       "artist_name" := PyStr "Ye";
       "listen_count" := PyInt 4 ]};
    {[ "artist_mbid" := PyStr "61af87f4-16ee-4431-8504-cc06187079fb";
       "artist_name" := PyStr "XXXTENTACION";
       "listen_count" := PyInt 4 ]};
    {[ "artist_mbid" := PyStr "926ea44c-0efa-455a-b7ce-00ccb5a86cb7";
       "artist_name" := PyStr "Kyle Dion";
       "listen_count" := PyInt 4 ]};
    {[ "artist_mbid" := PyStr "00d0f0fa-a48c-416d-b4ff-25a290ce82d8";
       "artist_name" := PyStr "half•alive";
       "listen_count" := PyInt 3 ]};
    {[ "artist_mbid" := PyStr "8032cf05-d916-4b2a-9c53-6e75d4a24bd8";
       "artist_name" := PyStr "Trippie Redd";
       "listen_count" := PyInt 3 ]};
    {[ "artist_mbid" := PyStr "87b9b3b8-ab93-426c-a200-4012d667a626";
       "artist_name" := PyStr "The War on Drugs";
       "listen_count" := PyInt 3 ]};
    {[ "artist_mbid" := PyStr "aa5a6061-e60d-4a58-b9f6-c09de390bb2d";
       "artist_name" := PyStr "PnB Rock";
       "listen_count" := PyInt 3 ]};
    {[ "artist_mbid" := PyStr "592da4c4-9618-4a1a-a944-e60c05c39037";
       "artist_name" := PyStr "Patrick Watson";
       "listen_count" := PyInt 3 ]};
    {[ "artist_mbid" := PyStr "aa2c5e55-57f5-42a7-a0e4-4a02cd9399b1";
       "artist_name" := PyStr "Oh Wonder";
       "listen_count" := PyInt 3 ]};
    {[ "artist_mbid" := PyStr "dde26295-8cd4-474c-8740-3edb801b2776";
       "artist_name" := PyStr "Maggie Rogers";
       "listen_count" := PyInt 3 ]}
  ].

Section Stats.

(** [StatisticsRange], [db_user] and [db_stats] are imported from other
    modules, and the date comes from the clock: the names of the members
    of [StatisticsRange], the two stores and today's date formatted as
    [%Y-%m-%d] are parameters. *)
Variable StatisticsRange_members : list string.
Variable users : string -> option (gmap string pyval).
Variable stats_store : pyval -> string -> string -> option user_stats.
Variable today : string.

Definition db_user_get_by_mb_id (name : string) : io (option (gmap string pyval)) :=
  fun log => (Ok (users name), (log ++ [GetByMbId name])%list).

Definition db_stats_get (user_id : pyval) (entity range : string)
  : io (option user_stats) :=
  fun log => (Ok (stats_store user_id entity range),
              (log ++ [StatsGet user_id entity range])%list).

Definition download_user_stats (entity user_name time_range : string)
  : io (list stat_record * Z) :=
  if negb (bool_decide (time_range ∈ StatisticsRange_members)) then
    io_raise (ValueError "Invalid date range given.")
  else if negb (bool_decide (entity ∈ ["artists"; "releases"; "recordings"])) then
    io_raise (ValueError "Stats entity must be one of artist, release or recording.")
  else
    do user <- db_user_get_by_mb_id user_name;
    match user with
    | None => io_raise (ValueError ("User " +:+ user_name +:+ " not found"))
    | Some user =>
        do user_id <- io_lift (py_getitem user "id");
        do stats <- db_stats_get user_id entity time_range;
        match stats with
        | None =>
            io_raise (ValueError ("Stats for user " +:+ user_name
                                  +:+ " not found/calculated"))
        | Some stats => io_ret (take NUMBER_OF_STATS (data stats), count stats)
        end
    end.

(** [self.time_range_to_english[time_range]]. *)
Definition english_time_range (time_range : string) : result string :=
  match time_range_to_english !! time_range with
  | Some s => Ok s
  | None => Raise (KeyError (PyStr time_range))
  end.

Definition create_artist_stats_cover (user_name time_range : string)
  : io (list stat_record * metadata) :=
  if String.eqb user_name "huhridge" then
    let artists := huhridge_artists in
    do english <- io_lift (english_time_range time_range);
    io_ret (artists,
            {| user_name := user_name;
               date := today;
               time_range := english;
               num_artists := 128 |})
  else
    do (artists, total_count) <- download_user_stats "artists" user_name time_range;
    do english <- io_lift (english_time_range time_range);
    io_ret (artists,
            {| user_name := user_name;
               date := today;
               time_range := english;
               num_artists := total_count |}).

End Stats.

(** ** Validation of the parameters *)

Definition hex_digit_value (c : ascii) : option Z :=
  let n := Z.of_N (N_of_ascii c) in
  if (48 <=? n) && (n <=? 57) then Some (n - 48)
  else if (97 <=? n) && (n <=? 102) then Some (n - 87)
  else if (65 <=? n) && (n <=? 70) then Some (n - 55)
  else None.

(** Digits of a hexadecimal literal, with the underscore rule of
    [int_digits]. *)
Fixpoint int16_digits (acc : Z) (after_digit : bool) (s : list ascii) : option Z :=
  match s with
  | [] => if after_digit then Some acc else None
  | c :: s' =>
      if Ascii.eqb c "_"%char then
        if after_digit then int16_digits acc false s' else None
      else
        match hex_digit_value c with
        | Some d => int16_digits (acc * 16 + d) true s'
        | None => None
        end
  end.

(** The prefix [0x] or [0X] that base 16 allows after the sign, and the
    one underscore that may follow it. *)
Definition skip_hex_prefix (s : list ascii) : list ascii :=
  match s with
  | c0 :: c1 :: s' =>
      if Ascii.eqb c0 "0"%char && (Ascii.eqb c1 "x"%char || Ascii.eqb c1 "X"%char)
      then match s' with
           | c2 :: s'' => if Ascii.eqb c2 "_"%char then s'' else s'
           | [] => s'
           end
      else s
  | _ => s
  end.

(** White space that [int] skips at both ends of a string, among the
    characters below 256: TAB, LF, VT, FF, CR and the space, and, outside
    the ASCII range, NEL and the no-break space. The separators FS, GS, RS
    and US, which [str.strip] removes, are not skipped. *)
Definition int_isspace (c : ascii) : bool :=
  let n := Z.of_N (N_of_ascii c) in
  ((9 <=? n) && (n <=? 13)) || (n =? 32) || (n =? 133) || (n =? 160).

Fixpoint int_lstrip (s : list ascii) : list ascii :=
  match s with
  | c :: s' => if int_isspace c then int_lstrip s' else s
  | [] => []
  end.

Definition int_strip (s : string) : list ascii :=
  rev (int_lstrip (rev (int_lstrip (list_ascii_of_string s)))).

(** [int(s, 16)]: [None] stands for [ValueError]. *)
Definition py_int16 (s : string) : option Z :=
  match int_strip s with
  | c :: s' =>
      if Ascii.eqb c "-"%char then Z.opp <$> int16_digits 0 false (skip_hex_prefix s')
      else if Ascii.eqb c "+"%char then int16_digits 0 false (skip_hex_prefix s')
      else int16_digits 0 false (skip_hex_prefix (c :: s'))
  | [] => None
  end.

(** The slice [s[i:j]] for [0 <= i <= j]. *)
Definition py_slice (s : string) (i j : nat) : string :=
  string_of_list_ascii (take (j - i) (drop i (list_ascii_of_string s))).

(** [s.startswith("#")]. *)
Definition starts_with_hash (s : string) : bool :=
  match s with
  | String c _ => Ascii.eqb c "#"%char
  | EmptyString => false
  end.

(** [parse_color_code]: [None] when the code is refused. *)
Definition parse_color_code (color_code : string) : option (Z * Z * Z) :=
  if negb (starts_with_hash color_code) then None
  else
    match py_int16 (py_slice color_code 1 3) with
    | None => None
    | Some r =>
        match py_int16 (py_slice color_code 3 5) with
        | None => None
        | Some g =>
            match py_int16 (py_slice color_code 5 7) with
            | None => None
            | Some b => Some (r, g, b)
            end
        end
    end.

(** A value stored in [skip_missing] or in
    [show_caa_image_for_missing_covers]: a boolean, or any other value. *)
Inductive flag : Type :=
| FlagBool (b : bool)
| FlagOther (v : pyval).

(** [isinstance(f, bool)]. *)
Definition is_bool (f : flag) : bool :=
  match f with
  | FlagBool _ => true
  | FlagOther _ => false
  end.

(** The attributes that [validate_parameters] reads, as [__init__] stores
    them: the two options are stored as given, of whatever type. The
    dimension and the image size are integers and the background is a
    string, so the test [self.image_size is None], which comes after the two
    comparisons, is false. *)
Record GeneratorAttributes : Type := {
  attr_dimension : Z;
  attr_image_size : Z;
  attr_background : string;
  attr_skip_missing : flag;
  attr_show_caa_image_for_missing_covers : flag
}.

(** The attributes of a generator whose options are booleans. *)
Definition attributes_of (g : CoverArtGenerator) : GeneratorAttributes :=
  {| attr_dimension := dimension g;
     attr_image_size := image_size g;
     attr_background := background g;
     attr_skip_missing := FlagBool (skip_missing g);
     attr_show_caa_image_for_missing_covers :=
       FlagBool (show_caa_image_for_missing_covers g) |}.

Coercion attributes_of : CoverArtGenerator >-> GeneratorAttributes.

(** [validate_parameters]: the error message, or [None]. The first message
    is not an f-string, its braces are literal. *)
Definition validate_parameters (a : GeneratorAttributes) : option string :=
  if negb (bool_decide
             (attr_dimension a
                ∈ seqZ MIN_DIMENSION (MAX_DIMENSION + 1 - MIN_DIMENSION)))
  then Some "dimension must be between {MIN_DIMENSION} and {MAX_DIMENSION}, inclusive."
  else
    let bg_color := parse_color_code (attr_background a) in
    if negb (bool_decide (attr_background a ∈ ["transparent"; "white"; "black"]))
       && negb (bool_decide (is_Some bg_color))
    then Some ("background must be one of transparent, white, black or a color code #rrggbb, not "
               +:+ attr_background a)
    else if (attr_image_size a <? MIN_IMAGE_SIZE) || (MAX_IMAGE_SIZE <? attr_image_size a)
    then Some ("image size must be between " +:+ py_str (PyInt MIN_IMAGE_SIZE)
               +:+ " and " +:+ py_str (PyInt MAX_IMAGE_SIZE) +:+ ", inclusive.")
    else if negb (is_bool (attr_skip_missing a))
    then Some "option skip-missing must be of type boolean."
    else if negb (is_bool (attr_show_caa_image_for_missing_covers a))
    then Some "option show-caa must be of type boolean."
    else None.

(** ** Covers made from statistics *)

(** The metadata dictionary of a release stats cover. *)
Record release_metadata : Type := {
  release_user_name : string;
  release_date : string;
  release_time_range : string;
  num_releases : Z
}.

(** Truth value of an identifier: [None] and the empty string are false. *)
Definition py_truthy (mbid : option string) : option string :=
  match mbid with
  | Some s => if String.eqb s "" then None else Some s
  | None => None
  end.

(** A list comprehension whose element expression may raise. *)
Fixpoint map_result {A B} (f : A -> result B) (l : list A) : result (list B) :=
  match l with
  | [] => Ok []
  | a :: l' =>
      let* b := f a in
      let* bs := map_result f l' in
      Ok (b :: bs)
  end.

(** [d[k]] for the dictionary of rows returned by the artwork lookup. *)
Definition py_getrow (d : gmap string (gmap string pyval)) (k : string)
  : result (gmap string pyval) :=
  match d !! k with
  | Some row => Ok row
  | None => Raise (KeyError (PyStr k))
  end.

Section Covers.

(** As in the section above; also imported: the artwork lookup
    [get_caa_ids_for_release_mbids], which queries the artwork store, and the
    field [release_mbid] of a release record. *)
Variable StatisticsRange_members : list string.
Variable users : string -> option (gmap string pyval).
Variable stats_store : pyval -> string -> string -> option user_stats.
Variable today : string.
Variable get_caa_ids_for_release_mbids : list string -> gmap string (gmap string pyval).
Variable release_mbid : stat_record -> option string.

(** [load_caa_ids]: one query of the artwork store, through a connection
    opened with [mb_db_connection_str]. *)
Definition load_caa_ids (g : CoverArtGenerator) (release_mbids : list string)
  : io (gmap string (gmap string pyval)) :=
  fun log => (Ok (get_caa_ids_for_release_mbids release_mbids),
              (log ++ [GetCaaIds (mb_db_connection_str g) release_mbids])%list).

(** The dictionary built for one release of [load_images]. *)
Definition cover_of_row (results : gmap string (gmap string pyval))
    (release_mbid : string) : result cover :=
  let* row := py_getrow results release_mbid in
  let* title := py_getitem row "title" in
  let* row := py_getrow results release_mbid in
  let* artist := py_getitem row "artist" in
  let* row := py_getrow results release_mbid in
  let* caa_id := py_getitem row "caa_id" in
  let* row := py_getrow results release_mbid in
  let* caa_release_mbid := py_getitem row "caa_release_mbid" in
  Ok ({[ "entity_mbid" := PyStr release_mbid;
         "title" := title;
         "artist" := artist;
         "caa_id" := caa_id;
         "caa_release_mbid" := caa_release_mbid ]} : cover).

(** [load_images]: the list [covers] is built by the call, so only the
    result of [generate_from_caa_ids] is visible to the caller. *)
Definition load_images (g : CoverArtGenerator) (mbids : list (option string))
    (tile_addrs : option (list string)) (layout : option Z) (cover_art_size : Z)
  : io (list image) :=
  let release_mbids := omap py_truthy mbids in
  do results <- load_caa_ids g release_mbids;
  do covers <- io_lift (map_result (cover_of_row results) release_mbids);
  io_lift (generate_from_caa_ids g covers tile_addrs layout cover_art_size).1.

(** [create_grid_stats_cover]; [images] is a list, so the test
    [images is None] is false. *)
Definition create_grid_stats_cover (g : CoverArtGenerator)
    (user_name time_range : string) (layout : option Z)
  : io (list image * string) :=
  do (releases, _) <- download_user_stats StatisticsRange_members users stats_store
                        "releases" user_name time_range;
  let release_mbids := map release_mbid releases in
  do images <- load_images g release_mbids None layout 500;
  do english <- io_lift (english_time_range time_range);
  io_ret (images, english).

(** [create_release_stats_cover]; again [images] is never [None]. *)
Definition create_release_stats_cover (g : CoverArtGenerator)
    (user_name time_range : string)
  : io (list image * list stat_record * release_metadata) :=
  do (releases, total_count) <-
    download_user_stats StatisticsRange_members users stats_store
      "releases" user_name time_range;
  let release_mbids := map release_mbid releases in
  do images <- load_images g release_mbids None None 500;
  do english <- io_lift (english_time_range time_range);
  io_ret (images, releases,
          {| release_user_name := user_name;
             release_date := today;
             release_time_range := english;
             num_releases := total_count |}).

End Covers.

(** ** Specification-side notions *)

(** The tile indices of a design: those of its addresses, in order. *)
Definition design_tiles (design : list string) : option (list Z) :=
  @concat Z <$> mapM parse_address design.

(** [tiles] lists every index of [0, n) once and nothing else. *)
Definition is_partition (n : Z) (tiles : list Z) : bool :=
  bool_decide (NoDup tiles)
  && forallb (fun t => (0 <=? t) && (t <? n)) tiles
  && forallb (fun t => bool_decide (t ∈ tiles)) (seqZ 0 n).

Definition design_is_partition (d : Z) (design : list string) : bool :=
  match design_tiles design with
  | Some tiles => is_partition (d * d) tiles
  | None => false
  end.

(** [outer] contains the rectangle [inner]. *)
Definition box_contains (outer inner : box) : Prop :=
  let '(ox1, oy1, ox2, oy2) := outer in
  let '(ix1, iy1, ix2, iy2) := inner in
  ox1 <= ix1 /\ oy1 <= iy1 /\ ix2 <= ox2 /\ iy2 <= oy2.

(** An address is valid when every token converts to a tile of the grid. *)
Definition address_valid (g : CoverArtGenerator) (address : string) : bool :=
  match parse_address address with
  | Some tiles => forallb (tile_in_range g) tiles
  | None => false
  end.

Definition box_wf (b : box) : Prop :=
  let '(bx1, by1, bx2, by2) := b in bx1 <= bx2 /\ by1 <= by2.

Definition has_no_artwork (c : cover) : bool :=
  bool_decide (c !! "caa_id" = Some PyNone).

(** Every remaining candidate would be skipped. *)
Definition exhausted (g : CoverArtGenerator) (covers : list cover) : bool :=
  forallb (fun c => skip_missing g && has_no_artwork c) covers.

(** The entry of a tile left to the placeholder. *)
Definition placeholder_image (b : box) : image :=
  let '(x1, y1, x2, y2) := b in
  {| x := x1; y := y1; width := x2 - x1; height := y2 - y1;
     url := CAA_MISSING_IMAGE;
     entity_mbid := PyNone; title := PyNone; artist := PyNone |}.

(** Where an image of the output comes from: the placeholder of an empty
    list, or a candidate of [covers] that has artwork. *)
Definition image_origin (covers : list cover) (img : image) : Prop :=
  (exists b, img = placeholder_image b)
  \/ (exists c b u, c ∈ covers /\ has_no_artwork c = false /\ img = make_image b u c).

(** ** Example values *)

Definition example_generator : CoverArtGenerator :=
  {| mb_db_connection_str := "";
     dimension := 2;
     image_size := 500;
     background := "#FFFFFF";
     skip_missing := true;
     show_caa_image_for_missing_covers := true;
     tile_size := 250 |}.

Definition cover_without_artwork : cover :=
  {[ "entity_mbid" := PyStr "release-a"; "title" := PyStr "A";
     "artist" := PyStr "Artist A"; "caa_id" := PyNone;
     "caa_release_mbid" := PyNone ]}.

Definition cover_with_artwork : cover :=
  {[ "entity_mbid" := PyStr "release-b"; "title" := PyStr "B";
     "artist" := PyStr "Artist B"; "caa_id" := PyInt 123;
     "caa_release_mbid" := PyStr "release-b" ]}.

Definition example_generator_no_skip : CoverArtGenerator :=
  {| mb_db_connection_str := "";
     dimension := 2;
     image_size := 500;
     background := "#FFFFFF";
     skip_missing := false;
     show_caa_image_for_missing_covers := true;
     tile_size := 250 |}.

(** A world with two list objects that hold the same candidate. *)
Definition example_world : world :=
  {| w_self := example_generator;
     w_designs := GRID_TILE_DESIGNS;
     w_lists := {[ 1%nat := [cover_with_artwork]; 2%nat := [cover_with_artwork] ]} |}.

(** ** Further specification-side notions *)

(** Position and size of an image, and those a box gives to its image. *)
Definition image_geometry (img : image) : Z * Z * Z * Z :=
  (x img, y img, width img, height img).

Definition box_geometry (b : box) : Z * Z * Z * Z :=
  let '(x1, y1, x2, y2) := b in (x1, y1, x2 - x1, y2 - y1).

(** The address that spells a list of tiles: their decimal forms joined by
    commas. *)
Definition address_of_tiles (tiles : list Z) : string :=
  String.concat "," (map (fun t => py_str (PyInt t)) tiles).

(** Characters of a printed integer: digits and the minus sign. *)
Definition plain_char (c : ascii) : bool :=
  match digit_value c with
  | Some _ => true
  | None => Ascii.eqb c "-"%char
  end.

(** A colour written as [#rrggbb], in lower or upper case. *)
Definition hex_char (upper : bool) (n : Z) : ascii :=
  if n <? 10 then ascii_of_N (Z.to_N (48 + n))
  else ascii_of_N (Z.to_N ((if upper then 55 else 87) + n)).

Definition hex2 (upper : bool) (n : Z) : string :=
  String (hex_char upper (n / 16)) (String (hex_char upper (n mod 16)) "").

Definition color_code (upper : bool) (r g b : Z) : string :=
  "#" +:+ hex2 upper r +:+ hex2 upper g +:+ hex2 upper b.

(** All characters. *)
Definition all_ascii : list ascii := map ascii_of_nat (seq 0 256).

(** A value [int(_, 16)] may give for a string of at most two characters. *)
Definition short_hex_ok (l : list ascii) : bool :=
  match py_int16 (string_of_list_ascii l) with
  | Some v => (-15 <=? v) && (v <=? 255)
  | None => true
  end.

(** A candidate with artwork: both identifiers are present and the artwork
    identifier is not [None]. *)
Definition has_artwork (c : cover) : Prop :=
  exists caa_id caa_release_mbid,
    c !! "caa_id" = Some caa_id /\ caa_id <> PyNone
    /\ c !! "caa_release_mbid" = Some caa_release_mbid.

(** The archive URL of a candidate, spelled out. *)
Definition archive_url (c : cover) (cover_art_size : Z) : string :=
  "https://archive.org/download/mbid-" +:+ py_str (py_get c "caa_release_mbid")
  +:+ "/mbid-" +:+ py_str (py_get c "caa_release_mbid")
  +:+ "-" +:+ py_str (py_get c "caa_id")
  +:+ "_thumb" +:+ py_str (PyInt cover_art_size) +:+ ".jpg".

(** A candidate lacks a key that the loop reads. *)
Definition missing_key (c : cover) (key : string) : Prop :=
  (key = "caa_id" /\ c !! "caa_id" = None)
  \/ (key = "caa_release_mbid" /\ c !! "caa_release_mbid" = None
      /\ exists caa_id, c !! "caa_id" = Some caa_id /\ caa_id <> PyNone).

(** A candidate built without the key [caa_id]. *)
Definition cover_without_caa_id : cover :=
  {[ "entity_mbid" := PyStr "release-c"; "title" := PyStr "C";
     "artist" := PyStr "Artist C"; "caa_release_mbid" := PyStr "release-c" ]}.

(** A generator of a given dimension, to evaluate what depends on the
    dimension only. *)
Definition generator_of_dimension (d : Z) : CoverArtGenerator :=
  {| mb_db_connection_str := "";
     dimension := d;
     image_size := 0;
     background := "";
     skip_missing := true;
     show_caa_image_for_missing_covers := true;
     tile_size := 0 |}.

(** What the catalog holds, as a list. *)
Definition catalog_entries : list (Z * list (list string)) :=
  map_to_list GRID_TILE_DESIGNS.

(** An image lies inside a square canvas and is at least [m] wide and high. *)
Definition image_within (size m : Z) (img : image) : Prop :=
  0 <= x img /\ 0 <= y img
  /\ m <= width img /\ m <= height img
  /\ x img + width img <= size - 1 /\ y img + height img <= size - 1.

(** The row of the artwork lookup has the four keys [load_images] reads. *)
Definition row_complete (row : gmap string pyval) : Prop :=
  is_Some (row !! "title") /\ is_Some (row !! "artist")
  /\ is_Some (row !! "caa_id") /\ is_Some (row !! "caa_release_mbid").

(** An artwork lookup that knows the releases "a" and "b". *)
Definition example_row (m : string) : gmap string pyval :=
  {[ "title" := PyStr "T"; "artist" := PyStr "A"; "caa_id" := PyInt 5;
     "caa_release_mbid" := PyStr m ]}.

Definition example_lookup (release_mbids : list string)
  : gmap string (gmap string pyval) :=
  {[ "a" := example_row "a"; "b" := example_row "b" ]}.

(** Stores with one user, "rob", who has one release in his statistics. *)
Definition example_users (name : string) : option (gmap string pyval) :=
  if String.eqb name "rob" then Some {[ "id" := PyInt 7 ]} else None.

Definition example_release : stat_record :=
  {[ "release_mbid" := PyStr "a"; "release_name" := PyStr "T";
     "listen_count" := PyInt 4 ]}.

Definition example_stats (user_id : pyval) (entity range : string)
  : option user_stats :=
  Some {| data := [example_release]; count := 1 |}.

Definition example_release_mbid (r : stat_record) : option string :=
  match r !! "release_mbid" with
  | Some (PyStr s) => Some s
  | _ => None
  end.

(** ** Proof automation *)

Ltac break_boxes :=
  repeat match goal with
         | b : (Z * Z * Z * Z)%type |- _ => destruct b as [[[? ?] ?] ?]
         end.

(** * Properties *)

(** ** The layout catalog is a family of partitions *)

Lemma is_partition_spec (n : Z) (tiles : list Z) :
  is_partition n tiles = true ->
  NoDup tiles /\ forall t, t ∈ tiles <-> 0 <= t < n.
Proof.
  unfold is_partition. rewrite !andb_true_iff, !forallb_forall.
  intros [[Hnd Hin] Hall]. apply bool_decide_eq_true in Hnd.
  split; [exact Hnd|]. intros t; split.
  - intros Ht. apply list_elem_of_In, Hin in Ht. lia.
  - intros Ht. assert (Hs : t ∈ seqZ 0 n) by (apply elem_of_seqZ; lia).
    apply list_elem_of_In, Hall in Hs. by apply bool_decide_eq_true in Hs.
Qed.

Lemma design_is_partition_spec (d : Z) (design : list string) :
  design_is_partition d design = true ->
  exists tiles, design_tiles design = Some tiles
    /\ NoDup tiles /\ forall t, t ∈ tiles <-> 0 <= t < d * d.
Proof.
  unfold design_is_partition. destruct (design_tiles design) as [tiles|]; [|done].
  intros H. exists tiles. split; [done|]. by apply is_partition_spec.
Qed.

(** C1. For every dimension d in 2..5 the catalog holds a non-empty list of
    designs, and in each of them the tile indices parsed from all addresses
    are exactly 0 .. d*d-1, each occurring once. *)
Theorem grid_tile_designs_partition (d : Z) :
  2 <= d <= 5 ->
  exists designs,
    GRID_TILE_DESIGNS !! d = Some designs /\ designs <> [] /\
    Forall (fun design =>
              exists tiles, design_tiles design = Some tiles
                /\ NoDup tiles /\ forall t, t ∈ tiles <-> 0 <= t < d * d)
           designs.
Proof.
  intros Hd.
  assert (Hcases : d = 2 \/ d = 3 \/ d = 4 \/ d = 5) by lia.
  destruct Hcases as [-> | [-> | [-> | ->]]];
    (eexists; split; [vm_compute; reflexivity|]; split; [discriminate|];
     repeat (apply Forall_cons; split;
             [apply design_is_partition_spec; vm_compute; reflexivity|]);
     apply Forall_nil; exact I).
Qed.

Lemma grid_tile_designs_partition_witness :
  exists designs,
    GRID_TILE_DESIGNS !! 4 = Some designs /\ designs <> [] /\
    Forall (fun design =>
              exists tiles, design_tiles design = Some tiles
                /\ NoDup tiles /\ forall t, t ∈ tiles <-> 0 <= t < 4 * 4)
           designs.
Proof. apply (grid_tile_designs_partition 4). lia. Defined.

(** ** Positions of tiles *)

Lemma init_inv conn d size bg skip show g :
  init conn d size bg skip show = Ok g ->
  d <> 0 /\ dimension g = d /\ image_size g = size /\ tile_size g = size / d
  /\ skip_missing g = skip /\ show_caa_image_for_missing_covers g = show.
Proof.
  unfold init. destruct (Z.eqb_spec d 0) as [|Hd]; [done|].
  intros [= <-]. done.
Qed.

Lemma tile_in_range_iff g tile :
  tile_in_range g tile = true <-> 0 <= tile < dimension g * dimension g.
Proof. unfold tile_in_range. lia. Qed.

Lemma get_tile_position_in_range g tile :
  tile_in_range g tile = true ->
  get_tile_position g tile =
    Some (tile mod dimension g * tile_size g,
          tile / dimension g * tile_size g,
          (if tile mod dimension g =? dimension g - 1 then image_size g - 1
           else (tile mod dimension g + 1) * tile_size g),
          (if tile / dimension g =? dimension g - 1 then image_size g - 1
           else (tile / dimension g + 1) * tile_size g)).
Proof.
  unfold tile_in_range, get_tile_position.
  destruct ((tile <? 0) || (dimension g * dimension g <=? tile)); done.
Qed.

Lemma get_tile_position_out_of_range g tile :
  tile_in_range g tile = false -> get_tile_position g tile = None.
Proof.
  unfold tile_in_range, get_tile_position.
  destruct ((tile <? 0) || (dimension g * dimension g <=? tile)); done.
Qed.

(** Row and column of a tile of a grid with a positive dimension. *)
Lemma tile_row_col d tile :
  0 < d -> 0 <= tile < d * d ->
  0 <= tile mod d < d /\ 0 <= tile / d < d /\ tile = tile / d * d + tile mod d.
Proof.
  intros Hd Ht. split; [apply Z.mod_pos_bound; lia|]. split.
  - split; [apply Z.div_pos; lia|]. apply Z.div_lt_upper_bound; lia.
  - pose proof (Z.div_mod tile d). lia.
Qed.

(** C3. For a tile of the grid, with col = tile % dimension,
    row = tile // dimension and tile_size = image_size // dimension, the
    position is (col*tile_size, row*tile_size, (col+1)*tile_size,
    (row+1)*tile_size), where the right bound of the last column and the
    bottom bound of the last row are image_size - 1 instead; row and column
    range over the grid; and for dimension 2 and image size 500 tile 3 is at
    (250, 250, 499, 499). *)
Theorem get_tile_position_spec conn d size bg skip show g tile :
  init conn d size bg skip show = Ok g ->
  0 <= tile < d * d ->
  let col := tile mod d in
  let row := tile / d in
  let tileSize := size / d in
  get_tile_position g tile =
    Some (col * tileSize, row * tileSize,
          (if col =? d - 1 then size - 1 else (col + 1) * tileSize),
          (if row =? d - 1 then size - 1 else (row + 1) * tileSize))
  /\ (0 < d -> 0 <= col < d /\ 0 <= row < d /\ tile = row * d + col)
  /\ (d = 2 -> size = 500 -> get_tile_position g 3 = Some (250, 250, 499, 499)).
Proof.
  intros Hinit Ht col row tileSize.
  destruct (init_inv _ _ _ _ _ _ _ Hinit) as (Hd & Hdim & Hsize & Hts & _).
  split; [|split].
  - rewrite get_tile_position_in_range by (apply tile_in_range_iff; lia).
    rewrite Hdim, Hsize, Hts. reflexivity.
  - intros Hpos. destruct (tile_row_col d tile Hpos Ht) as (? & ? & ?). done.
  - intros -> ->.
    rewrite get_tile_position_in_range by (apply tile_in_range_iff; lia).
    rewrite Hdim, Hsize, Hts. reflexivity.
Qed.

Lemma get_tile_position_spec_witness :
  exists g, init "" 2 500 "#FFFFFF" true true = Ok g
    /\ get_tile_position g 3 = Some (250, 250, 499, 499)
    /\ get_tile_position g 0 = Some (0, 0, 250, 250).
Proof.
  eexists. split; [reflexivity|].
  split.
  - apply (get_tile_position_spec "" 2 500 "#FFFFFF" true true _ 3);
      [reflexivity | lia | reflexivity | reflexivity].
  - reflexivity.
Defined.

(** ** Bounding boxes of addresses *)

Lemma split_comma_nonempty cur s : split_comma cur s <> [].
Proof.
  revert cur. induction s as [|c s IH]; intros cur; simpl; [done|].
  destruct (Ascii.eqb c ","); [done | apply IH].
Qed.

Lemma parse_address_nonempty address tiles :
  parse_address address = Some tiles -> tiles <> [].
Proof.
  unfold parse_address, py_split_comma. intros H.
  apply length_mapM in H. rewrite length_map in H.
  pose proof (split_comma_nonempty [] (list_ascii_of_string address)) as Hne.
  destruct (split_comma [] (list_ascii_of_string address)); [done|].
  destruct tiles; [done | done].
Qed.

(** Positions of tiles of a grid of positive dimension and image size are
    well-formed rectangles. *)
Lemma get_tile_position_wf conn d size bg skip show g tile r :
  init conn d size bg skip show = Ok g ->
  0 < d -> 0 < size ->
  get_tile_position g tile = Some r -> box_wf r.
Proof.
  intros Hinit Hd Hsize Hr.
  destruct (init_inv _ _ _ _ _ _ _ Hinit) as (_ & Hdim & Hsz & Hts & _).
  destruct (tile_in_range g tile) eqn:Hin.
  2:{ rewrite get_tile_position_out_of_range in Hr; done. }
  rewrite get_tile_position_in_range in Hr by done.
  apply tile_in_range_iff in Hin. rewrite Hdim in *. rewrite Hsz, Hts in Hr.
  destruct (tile_row_col d tile Hd Hin) as (Hc & Hrw & _).
  assert (Hq : 0 <= size / d) by (apply Z.div_pos; lia).
  assert (Hm : d * (size / d) <= size) by (apply Z.mul_div_le; lia).
  injection Hr as <-. unfold box_wf.
  split.
  - destruct (Z.eqb_spec (tile mod d) (d - 1)) as [->|]; nia.
  - destruct (Z.eqb_spec (tile / d) (d - 1)) as [->|]; nia.
Qed.

(** The loop after its first iteration: it returns, and what it returns is
    the least box that contains [b] and the positions of [tiles]. *)
Lemma bounding_box_loop_hull g tiles : forall i b,
  Forall (fun t => tile_in_range g t = true) tiles ->
  exists b',
    bounding_box_loop g (S i) tiles (Some b) = Ok b'
    /\ box_contains b' b
    /\ (forall t r, t ∈ tiles -> get_tile_position g t = Some r -> box_contains b' r)
    /\ (forall o, box_contains o b ->
          (forall t r, t ∈ tiles -> get_tile_position g t = Some r ->
                       box_wf r /\ box_contains o r) ->
          box_contains o b').
Proof.
  induction tiles as [|t tiles IH]; intros i b Hall.
  - exists b. split; [done|]. split; [break_boxes; simpl; lia|].
    split; [intros t r Ht; by apply elem_of_nil in Ht|]. intros o Ho _. done.
  - apply Forall_cons in Hall as [Ht Hall]. cbn [bounding_box_loop].
    pose proof (get_tile_position_in_range _ _ Ht) as Hpos.
    destruct (get_tile_position g t) as [[[[rx1 ry1] rx2] ry2]|] eqn:Hr; [|done].
    clear Hpos. destruct b as [[[bx1 by1] bx2] by2].
    edestruct (IH (S i)) as (b' & Hrun & Hb & Hin & Hleast); [exact Hall|].
    exists b'. split; [exact Hrun|].
    split; [destruct b' as [[[? ?] ?] ?]; simpl in *; lia|].
    split.
    + intros t0 r0 [->|Ht0]%elem_of_cons Hr0.
      * rewrite Hr in Hr0. injection Hr0 as <-.
        destruct b' as [[[? ?] ?] ?]; simpl in *; lia.
      * by apply (Hin t0).
    + intros o Ho Hrects. apply Hleast.
      * destruct (Hrects t _ (list_elem_of_here _ _) Hr) as [Hwf Hor].
        destruct o as [[[? ?] ?] ?]; simpl in *; lia.
      * intros t0 r0 Ht0 Hr0. apply (Hrects t0); [by apply list_elem_of_further | done].
Qed.

Lemma forallb_Forall_true {A} (f : A -> bool) (l : list A) :
  forallb f l = true <-> Forall (fun a => f a = true) l.
Proof.
  rewrite forallb_forall, Forall_forall.
  split; intros H a Ha; apply H; by apply list_elem_of_In.
Qed.

(** The whole loop on a non-empty list of tiles of the grid. *)
Lemma bounding_box_loop_first g t tiles :
  Forall (fun t => tile_in_range g t = true) (t :: tiles) ->
  exists r b,
    get_tile_position g t = Some r
    /\ bounding_box_loop g O (t :: tiles) None = Ok b
    /\ (tiles = [] -> b = r)
    /\ (forall t' r', t' ∈ t :: tiles -> get_tile_position g t' = Some r' ->
                      box_contains b r')
    /\ (forall o,
          (forall t' r', t' ∈ t :: tiles -> get_tile_position g t' = Some r' ->
                         box_wf r' /\ box_contains o r') ->
          box_contains o b).
Proof.
  intros [Ht Hall]%Forall_cons. cbn [bounding_box_loop].
  pose proof (get_tile_position_in_range _ _ Ht) as Hpos.
  destruct (get_tile_position g t) as [r|] eqn:Hr; [|done]. clear Hpos.
  destruct (bounding_box_loop_hull g tiles O r Hall) as (b & Hrun & Hb & Hin & Hleast).
  exists r, b. split; [done|].
  split; [destruct r as [[[? ?] ?] ?]; exact Hrun|].
  split; [intros ->; simpl in Hrun; congruence|].
  split.
  - intros t' r' [->|Ht']%elem_of_cons Hr'; [congruence | by apply (Hin t')].
  - intros o Hrects. apply Hleast.
    + apply (Hrects t r); [apply list_elem_of_here | done].
    + intros t' r' Ht' Hr'. apply (Hrects t'); [by apply list_elem_of_further | done].
Qed.

Lemma calculate_bounding_box_invalid g address :
  address_valid g address = false -> calculate_bounding_box g address = Ok None.
Proof.
  unfold address_valid, calculate_bounding_box.
  destruct (parse_address address) as [tiles|]; [|done].
  intros ->. done.
Qed.

Lemma calculate_bounding_box_valid g address :
  address_valid g address = true ->
  exists b, calculate_bounding_box g address = Ok (Some b).
Proof.
  unfold address_valid, calculate_bounding_box.
  destruct (parse_address address) as [tiles|] eqn:Hp; [|done].
  intros Hall. rewrite Hall. apply parse_address_nonempty in Hp.
  destruct tiles as [|t tiles]; [done|].
  apply forallb_Forall_true in Hall.
  destruct (bounding_box_loop_first g t tiles Hall) as (r & b & _ & Hrun & _).
  exists b. rewrite Hrun. done.
Qed.

(** C4. In a grid of positive dimension and image size, an address whose
    tokens all convert to tiles of the grid has a bounding box; it contains
    the position of every member tile and is contained in every box that
    does; and for an address of one tile it is the position of that tile. *)
Theorem calculate_bounding_box_smallest conn d size bg skip show g address tiles :
  init conn d size bg skip show = Ok g ->
  0 < d -> 0 < size ->
  parse_address address = Some tiles ->
  Forall (fun t => 0 <= t < d * d) tiles ->
  exists bb,
    calculate_bounding_box g address = Ok (Some bb)
    /\ (forall t, t ∈ tiles ->
          exists r, get_tile_position g t = Some r /\ box_contains bb r)
    /\ (forall o,
          (forall t r, t ∈ tiles -> get_tile_position g t = Some r ->
                       box_contains o r) ->
          box_contains o bb)
    /\ (forall t, tiles = [t] ->
          calculate_bounding_box g address = Ok (get_tile_position g t)).
Proof.
  intros Hinit Hd Hsize Hp Hrange.
  destruct (init_inv _ _ _ _ _ _ _ Hinit) as (_ & Hdim & _).
  assert (Hall : Forall (fun t => tile_in_range g t = true) tiles).
  { eapply Forall_impl; [exact Hrange|]. intros t Ht.
    apply tile_in_range_iff. by rewrite Hdim. }
  assert (Hb : forallb (tile_in_range g) tiles = true)
    by (by apply forallb_Forall_true).
  pose proof (parse_address_nonempty _ _ Hp) as Hne.
  destruct tiles as [|t0 tiles]; [done|].
  destruct (bounding_box_loop_first g t0 tiles Hall)
    as (r0 & bb & Hr0 & Hrun & Hone & Hin & Hleast).
  assert (Hcalc : calculate_bounding_box g address = Ok (Some bb)).
  { unfold calculate_bounding_box. rewrite Hp, Hb, Hrun. done. }
  exists bb. split; [exact Hcalc|]. split; [|split].
  - intros t Ht. rewrite Forall_forall in Hall.
    pose proof (get_tile_position_in_range _ _ (Hall t Ht)) as Hr.
    eexists. split; [exact Hr|]. by apply (Hin t).
  - intros o Hrects. apply Hleast. intros t r Ht Hr. split.
    + by apply (get_tile_position_wf conn d size bg skip show g t r).
    + by apply (Hrects t).
  - intros t [= -> ->]. rewrite Hcalc, Hr0, (Hone eq_refl). done.
Qed.

Lemma calculate_bounding_box_smallest_witness :
  exists g bb,
    init "" 3 600 "#FFFFFF" true true = Ok g
    /\ calculate_bounding_box g "4,5, 7,8" = Ok (Some bb)
    /\ (forall t, t ∈ [4; 5; 7; 8] ->
          exists r, get_tile_position g t = Some r /\ box_contains bb r)
    /\ (forall o,
          (forall t r, t ∈ [4; 5; 7; 8] -> get_tile_position g t = Some r ->
                       box_contains o r) ->
          box_contains o bb)
    /\ (forall t, [4; 5; 7; 8] = [t] ->
          calculate_bounding_box g "4,5, 7,8" = Ok (get_tile_position g t)).
Proof.
  eexists.
  destruct (calculate_bounding_box_smallest "" 3 600 "#FFFFFF" true true _
              "4,5, 7,8" [4; 5; 7; 8] eq_refl) as (bb & H);
    [lia | lia | reflexivity | repeat constructor; lia |].
  exists bb. split; [reflexivity | exact H].
Defined.

(** ** Resolution of cover art *)

(** C7. [resolve_cover_art] returns no URL exactly when the size is neither
    250 nor 500; for these two sizes it returns the archive URL spelled from
    the release identifier, the artwork identifier and the size, whatever
    the identifiers are. *)
Theorem resolve_cover_art_spec (caa_id caa_release_mbid : pyval) (size : Z) :
  (resolve_cover_art caa_id caa_release_mbid size = None
   <-> size <> 250 /\ size <> 500)
  /\ (size = 250 ->
      resolve_cover_art caa_id caa_release_mbid size =
        Some ("https://archive.org/download/mbid-" +:+ py_str caa_release_mbid
              +:+ "/mbid-" +:+ py_str caa_release_mbid
              +:+ "-" +:+ py_str caa_id +:+ "_thumb250.jpg"))
  /\ (size = 500 ->
      resolve_cover_art caa_id caa_release_mbid size =
        Some ("https://archive.org/download/mbid-" +:+ py_str caa_release_mbid
              +:+ "/mbid-" +:+ py_str caa_release_mbid
              +:+ "-" +:+ py_str caa_id +:+ "_thumb500.jpg")).
Proof.
  split; [|split].
  - unfold resolve_cover_art.
    destruct (Z.eqb_spec size 250) as [->|H250]; [simpl; split; [done | lia]|].
    destruct (Z.eqb_spec size 500) as [->|H500]; [simpl; split; [done | lia]|].
    simpl. split; [lia | done].
  - intros ->. reflexivity.
  - intros ->. reflexivity.
Qed.

Lemma resolve_cover_art_spec_witness :
  resolve_cover_art (PyInt 1234) (PyStr "8b5a") 250 =
    Some "https://archive.org/download/mbid-8b5a/mbid-8b5a-1234_thumb250.jpg"
  /\ resolve_cover_art (PyInt 1234) (PyStr "8b5a") 300 = None.
Proof.
  destruct (resolve_cover_art_spec (PyInt 1234) (PyStr "8b5a") 250) as (_ & H250 & _).
  destruct (resolve_cover_art_spec (PyInt 1234) (PyStr "8b5a") 300) as (Hnone & _).
  split; [apply H250; reflexivity | apply Hnone; lia].
Defined.

(** ** Consumption of candidates *)

Lemma make_image_placeholder b : make_image b CAA_MISSING_IMAGE ∅ = placeholder_image b.
Proof. destruct b as [[[? ?] ?] ?]. reflexivity. Qed.

Lemma next_cover_skip g size c covers :
  skip_missing g = true -> has_no_artwork c = true ->
  next_cover g size (c :: covers) = next_cover g size covers.
Proof.
  intros Hskip Hc. apply bool_decide_eq_true in Hc.
  cbn [next_cover]. unfold py_getitem. rewrite Hc, Hskip. done.
Qed.

Lemma next_cover_keep g size c covers :
  has_no_artwork c = false ->
  exists r, next_cover g size (c :: covers) = (r, covers).
Proof.
  intros Hc. apply bool_decide_eq_false in Hc.
  cbn [next_cover]. unfold py_getitem.
  destruct (c !! "caa_id") as [[| |]|]; try done; try (by eexists);
    destruct (c !! "caa_release_mbid"); by eexists.
Qed.

Lemma next_cover_filter g size covers :
  skip_missing g = true ->
  (next_cover g size covers).1 =
  (next_cover g size (filter (fun c => has_no_artwork c = false) covers)).1
  /\ filter (fun c => has_no_artwork c = false) (next_cover g size covers).2 =
     (next_cover g size (filter (fun c => has_no_artwork c = false) covers)).2.
Proof.
  intros Hskip. induction covers as [|c covers IH]; [done|].
  destruct (has_no_artwork c) eqn:Hc.
  - rewrite (next_cover_skip g size c covers Hskip Hc).
    rewrite filter_cons_False by (rewrite Hc; done). exact IH.
  - rewrite filter_cons_True by done.
    destruct (next_cover_keep g size c covers Hc) as (r & Hr).
    destruct (next_cover_keep g size c
                (filter (fun c => has_no_artwork c = false) covers) Hc) as (r' & Hr').
    rewrite Hr, Hr'. simpl. split; [|done].
    revert Hr Hr'. cbn [next_cover]. unfold py_getitem.
    apply bool_decide_eq_false in Hc.
    destruct (c !! "caa_id") as [[| |]|]; try done;
      try (destruct (c !! "caa_release_mbid")); try congruence;
      rewrite ?Hskip; destruct (show_caa_image_for_missing_covers g); congruence.
Qed.

Lemma place_images_filter g size tiles : forall covers images,
  skip_missing g = true ->
  (place_images g size tiles covers images).1 =
  (place_images g size tiles
     (filter (fun c => has_no_artwork c = false) covers) images).1.
Proof.
  induction tiles as [|b tiles IH]; intros covers images Hskip; [done|].
  cbn [place_images].
  destruct (next_cover_filter g size covers Hskip) as [Hr Hrest].
  destruct (next_cover g size covers) as [r rest].
  destruct (next_cover g size (filter _ covers)) as [r' rest'].
  simpl in Hr, Hrest. subst r' rest'.
  destruct r as [[[u|] c]|e]; [| |done].
  - by rewrite (IH rest).
  - by rewrite (IH rest).
Qed.

Lemma generate_from_caa_ids_filter g covers tile_addrs layout size :
  skip_missing g = true ->
  (generate_from_caa_ids g covers tile_addrs layout size).1 =
  (generate_from_caa_ids g (filter (fun c => has_no_artwork c = false) covers)
     tile_addrs layout size).1.
Proof.
  intros Hskip. unfold generate_from_caa_ids.
  destruct (select_addrs g tile_addrs layout) as [addrs|e]; [|done].
  destruct (bounding_boxes g addrs []) as [tiles|e]; [|done].
  by apply place_images_filter.
Qed.

Lemma next_cover_origin g size covers : forall u c rest,
  skip_missing g = true ->
  next_cover g size covers = (Ok (u, c), rest) ->
  ((c = ∅ /\ (u = None \/ u = Some CAA_MISSING_IMAGE))
   \/ (c ∈ covers /\ has_no_artwork c = false))
  /\ (forall c', c' ∈ rest -> c' ∈ covers).
Proof.
  induction covers as [|c0 covers IH]; intros u c rest Hskip.
  - cbn [next_cover]. intros [= <- <- <-]. split; [left|done].
    split; [done|]. destruct (show_caa_image_for_missing_covers g); auto.
  - destruct (has_no_artwork c0) eqn:Hc0.
    + rewrite (next_cover_skip g size c0 covers Hskip Hc0). intros Hrun.
      destruct (IH u c rest Hskip Hrun) as [Horigin Hrest]. split.
      * destruct Horigin as [?|[Hin Hc]]; [by left | right].
        split; [by apply list_elem_of_further | done].
      * intros c' Hc'. by apply list_elem_of_further, Hrest.
    + cbn [next_cover]. unfold py_getitem.
      pose proof Hc0 as Hne. apply bool_decide_eq_false in Hne.
      destruct (c0 !! "caa_id") as [[| |]|]; try done;
        (destruct (c0 !! "caa_release_mbid"); [|done]);
        intros [= <- <- <-];
        (split; [right; split; [apply list_elem_of_here | done]
                | intros c' Hc'; by apply list_elem_of_further]).
Qed.

Lemma place_images_origin g size tiles : forall covers images out rest covers0,
  skip_missing g = true ->
  place_images g size tiles covers images = (Ok out, rest) ->
  (forall c, c ∈ covers -> c ∈ covers0) ->
  Forall (image_origin covers0) images ->
  Forall (image_origin covers0) out.
Proof.
  induction tiles as [|b tiles IH]; intros covers images out rest covers0 Hskip.
  - cbn [place_images]. intros [= <- <-] _ Himgs. done.
  - cbn [place_images].
    destruct (next_cover g size covers) as [[[u c]|e] rest'] eqn:Hnext; [|done].
    destruct (next_cover_origin g size covers u c rest' Hskip Hnext) as [Horigin Hrest].
    intros Hrun Hsub Himgs.
    destruct u as [u|].
    + eapply (IH rest'); [done | exact Hrun | by auto |].
      apply Forall_app. split; [done|]. apply Forall_singleton.
      destruct Horigin as [[-> [Hu|Hu]]|[Hin Hc]]; [done | |].
      * injection Hu as ->. left. exists b. apply make_image_placeholder.
      * right. exists c, b, u. auto.
    + eapply (IH rest'); [done | exact Hrun | by auto | done].
Qed.

(** C5. With skip_missing set, candidates without artwork leave no trace:
    the images are those computed from the list with these candidates
    removed; every image is the placeholder of an empty list or is made
    from a candidate that has artwork; the loop of a tile passes over a
    candidate without artwork to the next one; and with a candidate without
    artwork followed by one with artwork and a single address, the latter
    fills the tile. *)
Theorem skip_missing_discards_candidates g covers tile_addrs layout size :
  skip_missing g = true ->
  (generate_from_caa_ids g covers tile_addrs layout size).1 =
    (generate_from_caa_ids g (filter (fun c => has_no_artwork c = false) covers)
       tile_addrs layout size).1
  /\ (forall out rest,
        generate_from_caa_ids g covers tile_addrs layout size = (Ok out, rest) ->
        Forall (image_origin covers) out)
  /\ (forall c rest, has_no_artwork c = true ->
        next_cover g size (c :: rest) = next_cover g size rest)
  /\ (forall no_art art addr b caa_id mbid u,
        has_no_artwork no_art = true ->
        art !! "caa_id" = Some caa_id -> caa_id <> PyNone ->
        art !! "caa_release_mbid" = Some mbid ->
        calculate_bounding_box g addr = Ok (Some b) ->
        resolve_cover_art caa_id mbid size = Some u ->
        generate_from_caa_ids g [no_art; art] (Some [addr]) None size =
          (Ok [make_image b u art], [])).
Proof.
  intros Hskip. split; [by apply generate_from_caa_ids_filter|].
  split.
  { intros out rest. unfold generate_from_caa_ids.
    destruct (select_addrs g tile_addrs layout) as [addrs|e]; [|done].
    destruct (bounding_boxes g addrs []) as [tiles|e]; [|done].
    intros Hrun. by eapply place_images_origin. }
  split; [intros c rest Hc; by apply next_cover_skip|].
  intros no_art art addr b caa_id mbid u Hno Hid Hnn Hmbid Hbox Hurl.
  unfold generate_from_caa_ids. cbn [select_addrs bounding_boxes].
  rewrite Hbox. cbn [rbind app place_images].
  rewrite (next_cover_skip g size no_art [art] Hskip Hno).
  cbn [next_cover]. unfold py_getitem. rewrite Hid, Hmbid.
  destruct caa_id; [done | |]; rewrite Hurl; done.
Qed.

Lemma skip_missing_discards_candidates_witness :
  generate_from_caa_ids example_generator
    [cover_without_artwork; cover_with_artwork] (Some ["0"]) None 500 =
  (Ok [ {| x := 0; y := 0; width := 250; height := 250;
           url := "https://archive.org/download/mbid-release-b/mbid-release-b-123_thumb500.jpg";
           entity_mbid := PyStr "release-b"; title := PyStr "B";
           artist := PyStr "Artist B" |} ], []).
Proof.
  destruct (skip_missing_discards_candidates example_generator
              [cover_without_artwork; cover_with_artwork] (Some ["0"]) None 500
              eq_refl) as (_ & _ & _ & H).
  apply (H cover_without_artwork cover_with_artwork "0" (0, 0, 250, 250)
           (PyInt 123) (PyStr "release-b")); try (vm_compute; reflexivity).
  discriminate.
Defined.

Lemma next_cover_exhausted g size covers :
  exhausted g covers = true ->
  next_cover g size covers =
    (Ok (if show_caa_image_for_missing_covers g then Some CAA_MISSING_IMAGE
         else None, ∅), []).
Proof.
  induction covers as [|c covers IH]; [done|].
  unfold exhausted. cbn [forallb]. intros [[Hskip Hc]%andb_true_iff Hrest]%andb_true_iff.
  rewrite (next_cover_skip g size c covers Hskip Hc). by apply IH.
Qed.

Lemma place_images_exhausted g size tiles : forall covers images,
  exhausted g covers = true ->
  place_images g size tiles covers images =
    (Ok (images ++ (if show_caa_image_for_missing_covers g
                    then placeholder_image <$> tiles else []))%list,
     match tiles with [] => covers | _ => [] end).
Proof.
  induction tiles as [|b tiles IH]; intros covers images Hex.
  - cbn [place_images].
    destruct (show_caa_image_for_missing_covers g);
      cbn [fmap list_fmap]; by rewrite app_nil_r.
  - cbn [place_images]. rewrite (next_cover_exhausted g size covers Hex).
    destruct (show_caa_image_for_missing_covers g) eqn:Hshow.
    + rewrite (IH [] _ eq_refl), make_image_placeholder.
      rewrite <- app_assoc. by destruct tiles.
    + rewrite (IH [] _ eq_refl). by destruct tiles.
Qed.

(** C6. Once the candidates are exhausted, a tile gets the missing-artwork
    policy once: with the placeholder option the loop adds for every
    remaining tile one image with the placeholder URL and no entity, title
    or artist, and without it nothing; so the call on such a list returns
    one placeholder per address, or no image at all. *)
Theorem exhausted_candidates_policy g size tiles covers images tile_addrs layout :
  exhausted g covers = true ->
  place_images g size tiles covers images =
    (Ok (images ++ (if show_caa_image_for_missing_covers g
                    then placeholder_image <$> tiles else []))%list,
     match tiles with [] => covers | _ => [] end)
  /\ (forall addrs,
        select_addrs g tile_addrs layout = Ok addrs ->
        bounding_boxes g addrs [] = Ok tiles ->
        generate_from_caa_ids g covers tile_addrs layout size =
          (Ok (if show_caa_image_for_missing_covers g
               then placeholder_image <$> tiles else []),
           match tiles with [] => covers | _ => [] end)).
Proof.
  intros Hex. split; [by apply place_images_exhausted|].
  intros addrs Hsel Hboxes. unfold generate_from_caa_ids.
  rewrite Hsel, Hboxes. by rewrite place_images_exhausted.
Qed.

Lemma exhausted_candidates_policy_witness :
  generate_from_caa_ids example_generator_no_skip [] (Some ["3"]) None 500 =
  (Ok [ {| x := 250; y := 250; width := 249; height := 249;
           url := "https://listenbrainz.org/static/img/cover-art-placeholder.jpg";
           entity_mbid := PyNone; title := PyNone; artist := PyNone |} ], []).
Proof.
  refine (proj2 (exhausted_candidates_policy example_generator_no_skip 500
                   [(250, 250, 499, 499)] [] []
                   (Some ["3"]) None eq_refl) ["3"] eq_refl eq_refl).
Defined.

(** ** Invalid addresses *)

Lemma bounding_boxes_first_invalid g pre addr post : forall acc,
  Forall (fun a => address_valid g a = true) pre ->
  address_valid g addr = false ->
  bounding_boxes g (pre ++ addr :: post) acc =
    Raise (ValueError ("Invalid address " +:+ addr +:+ " specified.")).
Proof.
  induction pre as [|a pre IH]; intros acc Hpre Haddr.
  - cbn [app bounding_boxes].
    by rewrite (calculate_bounding_box_invalid g addr Haddr).
  - apply Forall_cons in Hpre as [Ha Hpre].
    destruct (calculate_bounding_box_valid g a Ha) as (b & Hb).
    cbn [app bounding_boxes]. rewrite Hb. cbn [rbind]. by apply IH.
Qed.

Lemma first_invalid_address g addrs :
  Exists (fun a => address_valid g a = false) addrs ->
  exists pre addr post,
    addrs = (pre ++ addr :: post)%list
    /\ Forall (fun a => address_valid g a = true) pre
    /\ address_valid g addr = false.
Proof.
  induction addrs as [|a addrs IH]; intros Hex; [by apply Exists_nil in Hex|].
  destruct (address_valid g a) eqn:Ha.
  - apply Exists_cons in Hex as [Hex|Hex]; [congruence|].
    destruct (IH Hex) as (pre & addr & post & -> & Hpre & Haddr).
    exists (a :: pre), addr, post. split; [done|]. split; [|done].
    by apply Forall_cons.
  - exists [], a, addrs. done.
Qed.

(** C10. When some address of the chosen list is invalid, the call raises
    the invalid-address error for such an address, returns no image, and
    leaves the list of candidates as it received it. *)
Theorem invalid_address_leaves_covers g covers tile_addrs layout size addrs :
  select_addrs g tile_addrs layout = Ok addrs ->
  Exists (fun a => address_valid g a = false) addrs ->
  exists addr,
    addr ∈ addrs /\ address_valid g addr = false
    /\ generate_from_caa_ids g covers tile_addrs layout size =
         (Raise (ValueError ("Invalid address " +:+ addr +:+ " specified.")),
          covers).
Proof.
  intros Hsel Hex.
  destruct (first_invalid_address g addrs Hex)
    as (pre & addr & post & -> & Hpre & Haddr).
  exists addr. split; [|split; [done|]].
  - apply elem_of_app. right. apply list_elem_of_here.
  - unfold generate_from_caa_ids.
    by rewrite Hsel, (bounding_boxes_first_invalid g pre addr post [] Hpre Haddr).
Qed.

Lemma invalid_address_leaves_covers_witness :
  exists addr,
    addr ∈ ["0"; "1,x"; "9"] /\ address_valid example_generator addr = false
    /\ generate_from_caa_ids example_generator
         [cover_without_artwork; cover_with_artwork]
         (Some ["0"; "1,x"; "9"]) None 500 =
       (Raise (ValueError ("Invalid address " +:+ addr +:+ " specified.")),
        [cover_without_artwork; cover_with_artwork]).
Proof.
  apply (invalid_address_leaves_covers example_generator
           [cover_without_artwork; cover_with_artwork]
           (Some ["0"; "1,x"; "9"]) None 500 ["0"; "1,x"; "9"]).
  - reflexivity.
  - apply Exists_cons_tl, Exists_cons_hd. vm_compute. reflexivity.
Defined.

(** ** Two calls *)

Lemma set_list_same covers content w :
  w_lists w !! covers = Some content -> set_list covers content w = w.
Proof.
  destruct w as [g designs lists]. unfold set_list. cbn. intros H.
  f_equal. by apply insert_id.
Qed.

Lemma set_list_twice covers content content' w :
  set_list covers content (set_list covers content' w) = set_list covers content w.
Proof. unfold set_list. cbn. f_equal. apply insert_insert_eq. Qed.

(** The loop of a tile on the list object is the loop on its content, and
    it changes the world at this object only. *)
Lemma next_cover_run_spec covers size : forall content bound w,
  w_lists w !! covers = Some content ->
  (length content < bound)%nat ->
  next_cover_run bound covers size w =
    Some ((next_cover (w_self w) size content).1,
          set_list covers (next_cover (w_self w) size content).2 w).
Proof.
  induction content as [|c content IH]; intros bound w Hw Hlen;
    (destruct bound as [|bound]; [cbn in Hlen; lia|]);
    cbn [next_cover_run next_cover]; unfold run_bind, pop_first; rewrite Hw.
  - cbn. by rewrite (set_list_same covers [] w Hw).
  - unfold run_lift, read_self, run_ret, run_raise.
    destruct (py_getitem c "caa_id") as [[|n|s]|e]; cbn [fst snd w_self set_list].
    + destruct (skip_missing (w_self w)).
      * rewrite (IH bound (set_list covers content w)).
        -- cbn [w_self set_list]. by rewrite set_list_twice.
        -- cbn. apply lookup_insert_eq.
        -- cbn in Hlen. lia.
      * change (w_self (set_list covers content w)) with (w_self w).
        by destruct (show_caa_image_for_missing_covers (w_self w)).
    + by destruct (py_getitem c "caa_release_mbid").
    + by destruct (py_getitem c "caa_release_mbid").
    + done.
Qed.

Lemma place_images_run_spec covers size tiles : forall content images w,
  w_lists w !! covers = Some content ->
  place_images_run tiles covers size images w =
    Some ((place_images (w_self w) size tiles content images).1,
          set_list covers (place_images (w_self w) size tiles content images).2 w).
Proof.
  induction tiles as [|b tiles IH]; intros content images w Hw.
  - cbn. by rewrite (set_list_same covers content w Hw).
  - cbn [place_images_run place_images]. unfold run_bind at 1, loop_bound.
    rewrite Hw. unfold run_bind at 1.
    rewrite (next_cover_run_spec covers size content (S (length content)) w Hw)
      by lia.
    destruct (next_cover (w_self w) size content) as [[[[u|] c]|e] rest];
      cbn [fst snd]; [| |done];
      rewrite (IH rest _ (set_list covers rest w)) by apply lookup_insert_eq;
      cbn [w_self set_list]; by rewrite set_list_twice.
Qed.

Lemma bounding_boxes_run_spec addrs : forall tiles w,
  bounding_boxes_run addrs tiles w = Some (bounding_boxes (w_self w) addrs tiles, w).
Proof.
  induction addrs as [|addr addrs IH]; intros tiles w; [done|].
  cbn [bounding_boxes_run bounding_boxes]. unfold run_bind, read_self, run_lift.
  destruct (calculate_bounding_box (w_self w) addr) as [[b|]|e]; cbn [rbind];
    [apply IH | done | done].
Qed.

Lemma select_addrs_run_spec tile_addrs layout w :
  w_designs w = GRID_TILE_DESIGNS ->
  select_addrs_run tile_addrs layout w =
    Some (select_addrs (w_self w) tile_addrs layout, w).
Proof.
  intros Hd. unfold select_addrs_run, select_addrs, run_bind, read_designs,
    read_self, run_lift, run_raise, run_ret.
  destruct layout as [i|]; [|destruct tile_addrs as [addrs|]]; try done;
    rewrite Hd; by destruct (GRID_TILE_DESIGNS !! dimension (w_self w)).
Qed.

(** The method on the world and the function on lists agree: the result is
    that of [generate_from_caa_ids] on the content of the list object, and
    the only change to the world is this object, left as the function leaves
    the list. *)
Lemma generate_from_caa_ids_run_spec covers tile_addrs layout size content w :
  w_designs w = GRID_TILE_DESIGNS ->
  w_lists w !! covers = Some content ->
  generate_from_caa_ids_run covers tile_addrs layout size w =
    Some ((generate_from_caa_ids (w_self w) content tile_addrs layout size).1,
          set_list covers
            (generate_from_caa_ids (w_self w) content tile_addrs layout size).2 w).
Proof.
  intros Hd Hw. unfold generate_from_caa_ids_run, generate_from_caa_ids.
  unfold run_bind at 1. rewrite (select_addrs_run_spec _ _ _ Hd).
  destruct (select_addrs (w_self w) tile_addrs layout) as [addrs|e];
    [|cbn; by rewrite (set_list_same covers content w Hw)].
  unfold run_bind. rewrite bounding_boxes_run_spec.
  destruct (bounding_boxes (w_self w) addrs []) as [tiles|e];
    [|cbn; by rewrite (set_list_same covers content w Hw)].
  by apply place_images_run_spec.
Qed.

(** C9. In a world whose class attribute is the catalog, two calls with
    equal arguments, each on a list object of its own holding the same
    candidates, both return, and return the same result: the first call
    changes nothing that the second reads (not the instance, not the catalog,
    not the other list), it only consumes its own list. *)
Theorem generate_twice_same_output w l1 l2 covers tile_addrs layout size :
  w_designs w = GRID_TILE_DESIGNS ->
  l1 <> l2 ->
  w_lists w !! l1 = Some covers ->
  w_lists w !! l2 = Some covers ->
  exists r w1 w2,
    generate_from_caa_ids_run l1 tile_addrs layout size w = Some (r, w1)
    /\ generate_from_caa_ids_run l2 tile_addrs layout size w1 = Some (r, w2)
    /\ w_self w1 = w_self w /\ w_designs w1 = w_designs w
    /\ w_lists w1 !! l2 = Some covers.
Proof.
  intros Hd Hne H1 H2.
  rewrite (generate_from_caa_ids_run_spec l1 tile_addrs layout size covers w Hd H1).
  destruct (generate_from_caa_ids (w_self w) covers tile_addrs layout size)
    as [r rest] eqn:Hrun.
  cbn [fst snd].
  assert (H2' : w_lists (set_list l1 rest w) !! l2 = Some covers)
    by (cbn; by rewrite lookup_insert_ne).
  exists r, (set_list l1 rest w), (set_list l2 rest (set_list l1 rest w)).
  split; [done|]. split; [|done].
  rewrite (generate_from_caa_ids_run_spec l2 tile_addrs layout size covers
             (set_list l1 rest w) Hd H2').
  cbn [w_self set_list]. by rewrite Hrun.
Qed.

Lemma generate_twice_same_output_witness :
  exists r w1 w2,
    generate_from_caa_ids_run 1%nat (Some ["0"]) None 500 example_world = Some (r, w1)
    /\ generate_from_caa_ids_run 2%nat (Some ["0"]) None 500 w1 = Some (r, w2)
    /\ w_self w1 = w_self example_world /\ w_designs w1 = w_designs example_world
    /\ w_lists w1 !! 2%nat = Some [cover_with_artwork].
Proof.
  apply (generate_twice_same_output example_world 1%nat 2%nat [cover_with_artwork]);
    [reflexivity | lia | reflexivity | reflexivity].
Defined.

(** Two calls on one and the same list object: the second finds the list
    consumed by the first. *)
Lemma generate_twice_shared_list :
  exists r1 r2 w1 w2,
    generate_from_caa_ids_run 1%nat (Some ["0"]) None 500 example_world = Some (r1, w1)
    /\ generate_from_caa_ids_run 1%nat (Some ["0"]) None 500 w1 = Some (r2, w2)
    /\ r1 <> r2.
Proof.
  do 4 eexists. split; [vm_compute; reflexivity|].
  split; [vm_compute; reflexivity|]. discriminate.
Qed.

(** ** Fetching user statistics *)

(** C8. When the time range is not a member of [StatisticsRange] or the
    entity is not one of artists, releases, recordings, the fetch raises a
    [ValueError] and the log of store calls is as it was: neither store has
    been called. *)
Theorem download_user_stats_validation (members : list string)
    (users : string -> option (gmap string pyval))
    (stats_store : pyval -> string -> string -> option user_stats)
    (entity user_name time_range : string) (log : list store_call) :
  time_range ∉ members \/ entity ∉ ["artists"; "releases"; "recordings"] ->
  exists msg,
    download_user_stats members users stats_store entity user_name time_range log =
      (Raise (ValueError msg), log).
Proof.
  intros Hbad. unfold download_user_stats.
  destruct (decide (time_range ∈ members)) as [Hin|Hnin].
  - rewrite (bool_decide_eq_true_2 _ Hin). cbn [negb].
    destruct Hbad as [Hbad|Hbad]; [done|].
    rewrite (bool_decide_eq_false_2 _ Hbad). cbn [negb]. by eexists.
  - rewrite (bool_decide_eq_false_2 _ Hnin). cbn [negb]. by eexists.
Qed.

Lemma download_user_stats_validation_witness :
  exists msg,
    download_user_stats ["week"; "month"; "year"]
      (fun _ => Some {[ "id" := PyInt 1 ]})
      (fun _ _ _ => Some {| data := []; count := 0 |})
      "artists" "rob" "fortnight" [] =
    (Raise (ValueError msg), []).
Proof.
  apply download_user_stats_validation. left.
  intros H. repeat (apply elem_of_cons in H as [H|H]; [discriminate|]).
  by apply elem_of_nil in H.
Defined.

(** With valid arguments the user store is called first. *)
Lemma download_user_stats_calls_user_store (members : list string)
    (users : string -> option (gmap string pyval))
    (stats_store : pyval -> string -> string -> option user_stats)
    (entity user_name time_range : string) (log : list store_call) :
  time_range ∈ members -> entity ∈ ["artists"; "releases"; "recordings"] ->
  exists r calls,
    download_user_stats members users stats_store entity user_name time_range log =
      (r, (log ++ GetByMbId user_name :: calls)%list).
Proof.
  intros Hrange Hentity. unfold download_user_stats.
  rewrite (bool_decide_eq_true_2 _ Hrange), (bool_decide_eq_true_2 _ Hentity).
  cbn [negb]. unfold io_bind, db_user_get_by_mb_id, db_stats_get, io_lift,
    io_raise, io_ret.
  destruct (users user_name) as [user|]; [|eexists; by exists []].
  destruct (py_getitem user "id") as [uid|e]; [|eexists; by exists []].
  destruct (stats_store uid entity time_range) as [st|];
    rewrite <- app_assoc; eexists; by exists [StatsGet uid entity time_range].
Qed.

(** For every other user name the cover is made of the fetched records and
    of the fetched total. *)
Lemma create_artist_stats_cover_other_users (members : list string)
    (users : string -> option (gmap string pyval))
    (stats_store : pyval -> string -> string -> option user_stats)
    (today user_name time_range english : string) (log log' : list store_call)
    (artists : list stat_record) (total_count : Z) :
  user_name <> "huhridge" ->
  time_range_to_english !! time_range = Some english ->
  download_user_stats members users stats_store "artists" user_name time_range log =
    (Ok (artists, total_count), log') ->
  create_artist_stats_cover members users stats_store today user_name time_range log =
    (Ok (artists, {| user_name := user_name; date := today;
                     time_range := english; num_artists := total_count |}), log').
Proof.
  intros Hname Heng Hdl. unfold create_artist_stats_cover.
  apply String.eqb_neq in Hname. rewrite Hname.
  unfold io_bind. rewrite Hdl. unfold io_lift, english_time_range.
  rewrite Heng. done.
Qed.

(** C2. At the user name "huhridge" the cover is the stub: with a user
    store and a stats store that hold one artist and the total 1 for this
    user, the fetch returns that artist and that total, while the cover
    operation calls no store and returns the 25 stub records with
    num_artists 128. *)
Theorem create_artist_stats_cover_huhridge :
  let users := fun _ : string => Some ({[ "id" := PyInt 1 ]} : gmap string pyval) in
  let artist : stat_record :=
    {[ "artist_mbid" := PyStr "e520459c-dff4-491d-a6e4-c97be35e0044";
       "artist_name" := PyStr "Frank Ocean";
       "listen_count" := PyInt 3 ]} in
  let stats_store := fun (_ : pyval) (_ _ : string) =>
    Some {| data := [artist]; count := 1 |} in
  let members := ["week"; "month"; "year"] in
  download_user_stats members users stats_store "artists" "huhridge" "week" [] =
    (Ok ([artist], 1), [GetByMbId "huhridge"; StatsGet (PyInt 1) "artists" "week"])
  /\ create_artist_stats_cover members users stats_store "2024-05-01"
       "huhridge" "week" [] =
     (Ok (huhridge_artists,
          {| user_name := "huhridge"; date := "2024-05-01";
             time_range := "last week"; num_artists := 128 |}), [])
  /\ length huhridge_artists = 25%nat
  /\ huhridge_artists <> [artist].
Proof.
  split; [vm_compute; reflexivity|].
  split.
  { unfold create_artist_stats_cover.
    change (String.eqb "huhridge" "huhridge") with true. cbv iota.
    unfold io_bind, io_lift, io_ret, english_time_range.
    assert (Hweek : time_range_to_english !! "week" = Some "last week")
      by (vm_compute; reflexivity).
    rewrite Hweek. reflexivity. }
  split; [reflexivity|]. discriminate.
Qed.

(** * Further properties *)

(** ** The grid in pixels *)

Lemma tile_of_row_col d row col :
  0 <= row < d -> 0 <= col < d ->
  0 <= row * d + col < d * d
  /\ (row * d + col) mod d = col /\ (row * d + col) / d = row.
Proof.
  intros Hr Hc. split; [nia|]. split.
  - symmetry. apply (Z.mod_unique _ _ row); [lia | lia].
  - symmetry. apply (Z.div_unique _ _ _ col); lia.
Qed.

Lemma get_tile_position_row_col conn d size bg skip show g row col :
  init conn d size bg skip show = Ok g ->
  0 <= row < d -> 0 <= col < d ->
  get_tile_position g (row * d + col) =
    Some (col * (size / d), row * (size / d),
          (if col =? d - 1 then size - 1 else (col + 1) * (size / d)),
          (if row =? d - 1 then size - 1 else (row + 1) * (size / d))).
Proof.
  intros Hinit Hr Hc.
  destruct (init_inv _ _ _ _ _ _ _ Hinit) as (_ & Hdim & Hsz & Hts & _).
  destruct (tile_of_row_col d row col Hr Hc) as (Ht & Hm & Hq).
  rewrite get_tile_position_in_range by (apply tile_in_range_iff; by rewrite Hdim).
  by rewrite Hdim, Hsz, Hts, Hm, Hq.
Qed.

Lemma tile_position_bounds conn d size bg skip show g tile x1 y1 x2 y2 :
  init conn d size bg skip show = Ok g ->
  0 < d -> 0 < size ->
  get_tile_position g tile = Some (x1, y1, x2, y2) ->
  0 <= x1 <= x2 /\ x2 <= size - 1 /\ 0 <= y1 <= y2 /\ y2 <= size - 1.
Proof.
  intros Hinit Hd Hsize Hpos.
  destruct (init_inv _ _ _ _ _ _ _ Hinit) as (_ & Hdim & Hsz & Hts & _).
  destruct (tile_in_range g tile) eqn:Hin.
  2:{ by rewrite get_tile_position_out_of_range in Hpos. }
  rewrite get_tile_position_in_range in Hpos by done.
  apply tile_in_range_iff in Hin. rewrite Hdim in *. rewrite Hsz, Hts in Hpos.
  destruct (tile_row_col d tile Hd Hin) as (Hc & Hr & _).
  assert (Hq : 0 <= size / d) by (apply Z.div_pos; lia).
  assert (Hm : d * (size / d) <= size) by (apply Z.mul_div_le; lia).
  injection Hpos as <- <- <- <-.
  destruct (Z.eqb_spec (tile mod d) (d - 1)) as [Ec|Ec];
    destruct (Z.eqb_spec (tile / d) (d - 1)) as [Er|Er];
    rewrite ?Ec, ?Er; nia.
Qed.

(** X1. On a grid of positive dimension and image size every tile position
    lies inside the image: 0 <= x1 <= x2 <= image_size - 1, and the same
    for y. *)
Theorem get_tile_position_inside_image conn d size bg skip show g tile x1 y1 x2 y2 :
  init conn d size bg skip show = Ok g ->
  0 < d -> 0 < size ->
  get_tile_position g tile = Some (x1, y1, x2, y2) ->
  0 <= x1 <= x2 /\ x2 <= size - 1 /\ 0 <= y1 <= y2 /\ y2 <= size - 1.
Proof.
  intros Hinit Hd Hsize Hpos.
  exact (tile_position_bounds conn d size bg skip show g tile x1 y1 x2 y2
           Hinit Hd Hsize Hpos).
Qed.

Lemma get_tile_position_inside_image_witness :
  0 <= 200 <= 400 /\ 400 <= 600 - 1 /\ 0 <= 400 <= 599 /\ 599 <= 600 - 1.
Proof.
  apply (get_tile_position_inside_image "" 3 600 "white" true true _ 7 200 400 400 599
           eq_refl); [lia | lia | reflexivity].
Defined.

(** X2. The tiles of a grid of positive dimension abut: the first column
    starts at 0, the last one ends at image_size - 1, and the right edge of a
    tile is the left edge of its right neighbour, which has the same top and
    bottom; the same holds down the columns. *)
Theorem neighbouring_tiles_share_edges conn d size bg skip show g row col :
  init conn d size bg skip show = Ok g ->
  0 <= row < d -> 0 <= col < d ->
  exists x1 y1 x2 y2,
    get_tile_position g (row * d + col) = Some (x1, y1, x2, y2)
    /\ (col = 0 -> x1 = 0) /\ (row = 0 -> y1 = 0)
    /\ (col = d - 1 -> x2 = size - 1) /\ (row = d - 1 -> y2 = size - 1)
    /\ (col < d - 1 ->
        exists x3, get_tile_position g (row * d + col + 1) = Some (x2, y1, x3, y2))
    /\ (row < d - 1 ->
        exists y3, get_tile_position g (row * d + col + d) = Some (x1, y2, x2, y3)).
Proof.
  intros Hinit Hr Hc.
  rewrite (get_tile_position_row_col _ _ _ _ _ _ _ _ _ Hinit Hr Hc).
  do 4 eexists. split; [reflexivity|].
  split; [intros ->; lia|]. split; [intros ->; lia|].
  split; [intros ->; by rewrite Z.eqb_refl|].
  split; [intros ->; by rewrite Z.eqb_refl|].
  split.
  - intros Hlt.
    replace (row * d + col + 1) with (row * d + (col + 1)) by lia.
    rewrite (get_tile_position_row_col _ _ _ _ _ _ _ row (col + 1) Hinit) by lia.
    destruct (Z.eqb_spec col (d - 1)); [lia|]. by eexists.
  - intros Hlt.
    replace (row * d + col + d) with ((row + 1) * d + col) by lia.
    rewrite (get_tile_position_row_col _ _ _ _ _ _ _ (row + 1) col Hinit) by lia.
    destruct (Z.eqb_spec row (d - 1)); [lia|]. by eexists.
Qed.

Lemma neighbouring_tiles_share_edges_witness :
  exists g x1 y1 x2 y2 x3 y3,
    init "" 3 600 "white" true true = Ok g
    /\ get_tile_position g (1 * 3 + 1) = Some (x1, y1, x2, y2)
    /\ get_tile_position g (1 * 3 + 1 + 1) = Some (x2, y1, x3, y2)
    /\ get_tile_position g (1 * 3 + 1 + 3) = Some (x1, y2, x2, y3).
Proof.
  eexists.
  destruct (neighbouring_tiles_share_edges "" 3 600 "white" true true _ 1 1 eq_refl)
    as (x1 & y1 & x2 & y2 & Hpos & _ & _ & _ & _ & Hright & Hdown); [lia | lia |].
  destruct Hright as (x3 & Hx3); [lia|]. destruct Hdown as (y3 & Hy3); [lia|].
  exists x1, y1, x2, y2, x3, y3. split; [reflexivity|]. split; [exact Hpos|].
  split; [exact Hx3 | exact Hy3].
Defined.

(** X3. When the image is at least as wide as the grid has columns, two
    tiles of the grid at the same position are the same tile. *)
Theorem get_tile_position_injective conn d size bg skip show g t1 t2 :
  init conn d size bg skip show = Ok g ->
  0 < d <= size ->
  0 <= t1 < d * d -> 0 <= t2 < d * d ->
  get_tile_position g t1 = get_tile_position g t2 ->
  t1 = t2.
Proof.
  intros Hinit Hd H1 H2.
  destruct (init_inv _ _ _ _ _ _ _ Hinit) as (_ & Hdim & Hsz & Hts & _).
  rewrite !get_tile_position_in_range by (apply tile_in_range_iff; by rewrite Hdim).
  rewrite Hdim, Hts. intros [= Hx Hy _ _].
  assert (Hq : 0 < size / d) by (apply Z.div_str_pos; lia).
  apply Z.mul_cancel_r in Hx; [|lia]. apply Z.mul_cancel_r in Hy; [|lia].
  rewrite (Z.div_mod t1 d), (Z.div_mod t2 d) by lia. by rewrite Hx, Hy.
Qed.

Lemma get_tile_position_injective_witness :
  exists g, init "" 2 500 "white" true true = Ok g
    /\ (get_tile_position g 3 = get_tile_position g (1 + 2) -> 3 = 1 + 2).
Proof.
  eexists. split; [reflexivity|].
  apply (get_tile_position_injective "" 2 500 "white" true true _ 3 (1 + 2) eq_refl);
    lia.
Defined.

(** ** Bounding boxes: errors, order of the tiles, bounds *)

Lemma box_contains_antisym (a b : box) :
  box_contains a b -> box_contains b a -> a = b.
Proof.
  destruct a as [[[? ?] ?] ?], b as [[[? ?] ?] ?]. simpl.
  intros (? & ? & ? & ?) (? & ? & ? & ?). repeat f_equal; lia.
Qed.

Lemma forallb_false_elem {A} (f : A -> bool) (l : list A) :
  forallb f l = false -> exists a, a ∈ l /\ f a = false.
Proof.
  induction l as [|a l IH]; [done|]. cbn [forallb].
  destruct (f a) eqn:Ha.
  - intros H. destruct (IH H) as (a' & Hin & Ha'). exists a'.
    split; [by apply list_elem_of_further | done].
  - intros _. exists a. split; [apply list_elem_of_here | done].
Qed.

(** The box of an address whose tiles are in the grid. *)
Lemma calculate_bounding_box_hull g address tiles :
  parse_address address = Some tiles ->
  Forall (fun t => tile_in_range g t = true) tiles ->
  exists bb,
    calculate_bounding_box g address = Ok (Some bb)
    /\ (forall t r, t ∈ tiles -> get_tile_position g t = Some r -> box_contains bb r)
    /\ (forall o,
          (forall t r, t ∈ tiles -> get_tile_position g t = Some r ->
                       box_wf r /\ box_contains o r) ->
          box_contains o bb)
    /\ (exists t r, t ∈ tiles /\ get_tile_position g t = Some r).
Proof.
  intros Hp Hall.
  pose proof (parse_address_nonempty _ _ Hp) as Hne.
  destruct tiles as [|t0 tiles]; [done|].
  destruct (bounding_box_loop_first g t0 tiles Hall)
    as (r0 & bb & Hr0 & Hrun & _ & Hin & Hleast).
  exists bb. split.
  { unfold calculate_bounding_box.
    by rewrite Hp, (proj2 (forallb_Forall_true _ _) Hall), Hrun. }
  split; [exact Hin|]. split; [exact Hleast|].
  exists t0, r0. split; [apply list_elem_of_here | done].
Qed.

(** X4. [calculate_bounding_box] never raises, and it returns the tuple of
    [None] exactly when a token of the address is not an integer or names a
    tile outside the grid. *)
Theorem calculate_bounding_box_never_raises g address :
  (forall e, calculate_bounding_box g address <> Raise e)
  /\ (calculate_bounding_box g address = Ok None
      <-> parse_address address = None
          \/ exists tiles t, parse_address address = Some tiles /\ t ∈ tiles
               /\ ~ (0 <= t < dimension g * dimension g)).
Proof.
  destruct (address_valid g address) eqn:Hv.
  - destruct (calculate_bounding_box_valid g address Hv) as (b & Hb).
    rewrite Hb. split; [done|]. split; [done|].
    unfold address_valid in Hv.
    destruct (parse_address address) as [tiles|]; [|done].
    intros [|(tiles' & t & [= <-] & Ht & Hout)]; [done|].
    apply forallb_Forall_true in Hv. rewrite Forall_forall in Hv.
    exfalso. apply Hout, tile_in_range_iff. by apply Hv.
  - rewrite (calculate_bounding_box_invalid g address Hv).
    split; [done|]. split; [intros _|done].
    unfold address_valid in Hv.
    destruct (parse_address address) as [tiles|]; [right | by left].
    destruct (forallb_false_elem _ _ Hv) as (t & Ht & Hout).
    exists tiles, t. split; [done|]. split; [done|].
    intros Hin. apply tile_in_range_iff in Hin. congruence.
Qed.

(** X5. On a grid of positive dimension and image size the bounding box
    depends only on the set of tiles an address names: two addresses with
    the same tiles, in any order and with any repetition, have the same
    result. *)
Theorem calculate_bounding_box_same_tiles conn d size bg skip show g a1 a2 tiles1 tiles2 :
  init conn d size bg skip show = Ok g ->
  0 < d -> 0 < size ->
  parse_address a1 = Some tiles1 ->
  parse_address a2 = Some tiles2 ->
  (forall t, t ∈ tiles1 <-> t ∈ tiles2) ->
  calculate_bounding_box g a1 = calculate_bounding_box g a2.
Proof.
  intros Hinit Hd Hsize Hp1 Hp2 Hsame.
  assert (Hwf : forall t r, get_tile_position g t = Some r -> box_wf r).
  { intros t r. by apply (get_tile_position_wf conn d size bg skip show). }
  destruct (forallb (tile_in_range g) tiles1) eqn:H1.
  - apply forallb_Forall_true in H1.
    assert (H2 : Forall (fun t => tile_in_range g t = true) tiles2).
    { rewrite Forall_forall in H1 |- *. intros t Ht. by apply H1, Hsame. }
    destruct (calculate_bounding_box_hull g a1 tiles1 Hp1 H1)
      as (b1 & -> & Hin1 & Hleast1 & _).
    destruct (calculate_bounding_box_hull g a2 tiles2 Hp2 H2)
      as (b2 & -> & Hin2 & Hleast2 & _).
    do 2 f_equal. apply box_contains_antisym.
    + apply Hleast2. intros t r Ht Hr. split; [by apply (Hwf t)|].
      apply (Hin1 t); [by apply Hsame | done].
    + apply Hleast1. intros t r Ht Hr. split; [by apply (Hwf t)|].
      apply (Hin2 t); [by apply Hsame | done].
  - assert (H2 : forallb (tile_in_range g) tiles2 = false).
    { destruct (forallb (tile_in_range g) tiles2) eqn:H2; [|done].
      apply forallb_Forall_true in H2.
      assert (Hall : Forall (fun t => tile_in_range g t = true) tiles1).
      { rewrite Forall_forall in H2 |- *. intros t Ht. by apply H2, Hsame. }
      apply forallb_Forall_true in Hall. congruence. }
    unfold calculate_bounding_box. by rewrite Hp1, Hp2, H1, H2.
Qed.

Lemma calculate_bounding_box_same_tiles_witness :
  exists g, init "" 3 600 "white" true true = Ok g
    /\ calculate_bounding_box g "0,1,3,4" = calculate_bounding_box g " 4,3 ,1,0,4".
Proof.
  eexists. split; [reflexivity|].
  apply (calculate_bounding_box_same_tiles "" 3 600 "white" true true _
           "0,1,3,4" " 4,3 ,1,0,4" [0; 1; 3; 4] [4; 3; 1; 0; 4] eq_refl);
    [lia | lia | reflexivity | reflexivity |].
  intros t. rewrite !elem_of_cons, !elem_of_nil. tauto.
Defined.

Lemma bounding_box_bounds conn d size bg skip show g address x1 y1 x2 y2 :
  init conn d size bg skip show = Ok g ->
  0 < d -> 0 < size ->
  calculate_bounding_box g address = Ok (Some (x1, y1, x2, y2)) ->
  0 <= x1 <= x2 /\ x2 <= size - 1 /\ 0 <= y1 <= y2 /\ y2 <= size - 1.
Proof.
  intros Hinit Hd Hsize Hbox.
  assert (Hinside : forall t a b c e, get_tile_position g t = Some (a, b, c, e) ->
            0 <= a <= c /\ c <= size - 1 /\ 0 <= b <= e /\ e <= size - 1).
  { intros t a b c e.
    by apply (tile_position_bounds conn d size bg skip show g t). }
  pose proof Hbox as Hrun. unfold calculate_bounding_box in Hrun.
  destruct (parse_address address) as [tiles|] eqn:Hp; [|done].
  destruct (forallb (tile_in_range g) tiles) eqn:Hall; [|done]. clear Hrun.
  apply forallb_Forall_true in Hall.
  destruct (calculate_bounding_box_hull g address tiles Hp Hall)
    as (bb & Hbb & Hin & Hleast & t & [[[a b] c] e] & Ht & Hr).
  rewrite Hbb in Hbox. injection Hbox as ->.
  pose proof (Hin t _ Ht Hr) as Hc. pose proof (Hinside _ _ _ _ _ Hr) as Hi.
  assert (Hfull : box_contains (0, 0, size - 1, size - 1) (x1, y1, x2, y2)).
  { apply Hleast. intros t' [[[a' b'] c'] e'] Ht' Hr'.
    pose proof (Hinside _ _ _ _ _ Hr'). simpl. lia. }
  simpl in Hc, Hfull. lia.
Qed.

(** X6. On a grid of positive dimension and image size a bounding box is a
    rectangle inside the image: 0 <= x1 <= x2 <= image_size - 1, and the same
    for y. *)
Theorem calculate_bounding_box_inside_image conn d size bg skip show g address
    x1 y1 x2 y2 :
  init conn d size bg skip show = Ok g ->
  0 < d -> 0 < size ->
  calculate_bounding_box g address = Ok (Some (x1, y1, x2, y2)) ->
  0 <= x1 <= x2 /\ x2 <= size - 1 /\ 0 <= y1 <= y2 /\ y2 <= size - 1.
Proof.
  intros Hinit Hd Hsize Hbox.
  exact (bounding_box_bounds conn d size bg skip show g address x1 y1 x2 y2
           Hinit Hd Hsize Hbox).
Qed.

Lemma calculate_bounding_box_inside_image_witness :
  0 <= 200 <= 599 /\ 599 <= 600 - 1 /\ 0 <= 200 <= 599 /\ 599 <= 600 - 1.
Proof.
  apply (calculate_bounding_box_inside_image "" 3 600 "white" true true _ "4,5,7,8"
           200 200 599 599 eq_refl); [lia | lia | reflexivity].
Defined.

(** ** Integers and addresses: printing, then reading *)

Lemma int_digits_digit acc b c k s :
  Ascii.eqb c "_"%char = false -> digit_value c = Some k ->
  int_digits acc b (c :: s) = int_digits (acc * 10 + k) true s.
Proof. intros Hc Hk. cbn [int_digits]. by rewrite Hc, Hk. Qed.

Lemma int_digits_of_uint_acc d : forall (acc : positive) (b : bool),
  b = true \/ d <> Decimal.Nil ->
  int_digits (Z.pos acc) b (list_ascii_of_string (NilEmpty.string_of_uint d)) =
    Some (Z.pos (Pos.of_uint_acc d acc)).
Proof.
  induction d; intros acc b Hb;
    [destruct Hb as [->|]; done | ..];
    cbn [NilEmpty.string_of_uint list_ascii_of_string Pos.of_uint_acc];
    (erewrite int_digits_digit by (vm_compute; reflexivity));
    (rewrite <- (IHd _ true) by (by left)); f_equal; lia.
Qed.

Lemma int_digits_of_uint d : forall b : bool,
  b = true \/ d <> Decimal.Nil ->
  int_digits 0 b (list_ascii_of_string (NilEmpty.string_of_uint d)) =
    Some (Z.of_N (Pos.of_uint d)).
Proof.
  induction d; intros b Hb;
    [destruct Hb as [->|]; done | ..];
    cbn [NilEmpty.string_of_uint list_ascii_of_string Pos.of_uint];
    (erewrite int_digits_digit by (vm_compute; reflexivity));
    [apply IHd; by left | ..];
    apply (int_digits_of_uint_acc d _ true); by left.
Qed.

Lemma plain_chars_of_uint d :
  Forall (fun c => plain_char c = true)
         (list_ascii_of_string (NilEmpty.string_of_uint d)).
Proof. induction d; cbn [NilEmpty.string_of_uint list_ascii_of_string]; by constructor. Qed.

Lemma plain_chars_of_int n :
  Forall (fun c => plain_char c = true) (list_ascii_of_string (py_str (PyInt n))).
Proof.
  destruct n as [|p|p]; cbn [py_str Z.to_int NilZero.string_of_int].
  - by repeat constructor.
  - unfold NilZero.string_of_uint.
    destruct (Pos.to_uint p) eqn:E; try apply plain_chars_of_uint.
    by repeat constructor.
  - cbn [list_ascii_of_string]. constructor; [done|].
    unfold NilZero.string_of_uint.
    destruct (Pos.to_uint p) eqn:E; try apply plain_chars_of_uint.
    by repeat constructor.
Qed.

Lemma plain_char_not_space c : plain_char c = true -> py_isspace c = false.
Proof.
  destruct c as [[] [] [] [] [] [] [] []]; vm_compute; congruence.
Qed.

Lemma plain_char_not_comma c : plain_char c = true -> Ascii.eqb c ","%char = false.
Proof.
  destruct c as [[] [] [] [] [] [] [] []]; vm_compute; congruence.
Qed.

Lemma lstrip_plain (l : list ascii) :
  Forall (fun c => plain_char c = true) l -> lstrip l = l.
Proof.
  destruct 1 as [|c l Hc _]; [done|]. cbn [lstrip].
  by rewrite (plain_char_not_space c Hc).
Qed.

Lemma py_strip_plain (s : string) :
  Forall (fun c => plain_char c = true) (list_ascii_of_string s) ->
  py_strip s = s.
Proof.
  intros Hs. unfold py_strip. rewrite (lstrip_plain _ Hs).
  rewrite lstrip_plain by (by apply Forall_rev).
  by rewrite rev_involutive, string_of_list_ascii_of_string.
Qed.

Lemma py_int_printed (n : Z) : py_int (py_str (PyInt n)) = Some n.
Proof.
  unfold py_int. rewrite (py_strip_plain _ (plain_chars_of_int n)).
  destruct n as [|p|p]; cbn [py_str Z.to_int NilZero.string_of_int]; [done | |].
  - unfold NilZero.string_of_uint.
    pose proof (DecimalPos.Unsigned.to_uint_nonnil p) as Hnn.
    pose proof (int_digits_of_uint (Pos.to_uint p) false (or_intror Hnn)) as Hrun.
    rewrite DecimalPos.Unsigned.of_to in Hrun.
    destruct (Pos.to_uint p); [done | ..]; exact Hrun.
  - cbn [list_ascii_of_string]. rewrite Ascii.eqb_refl.
    unfold NilZero.string_of_uint.
    pose proof (DecimalPos.Unsigned.to_uint_nonnil p) as Hnn.
    pose proof (int_digits_of_uint (Pos.to_uint p) false (or_intror Hnn)) as Hrun.
    rewrite DecimalPos.Unsigned.of_to in Hrun.
    destruct (Pos.to_uint p); [done | ..]; by rewrite Hrun.
Qed.


Lemma list_ascii_of_string_app (s1 s2 : string) :
  list_ascii_of_string (s1 +:+ s2) =
    (list_ascii_of_string s1 ++ list_ascii_of_string s2)%list.
Proof. induction s1 as [|c s1 IH]; [done|]. simpl. f_equal. exact IH. Qed.

Lemma split_comma_plain l : forall cur,
  Forall (fun c => plain_char c = true) l ->
  split_comma cur l = [(rev cur ++ l)%list].
Proof.
  induction l as [|c l IH]; intros cur Hl.
  - cbn. by rewrite app_nil_r.
  - apply Forall_cons in Hl as [Hc Hl]. cbn [split_comma].
    rewrite (plain_char_not_comma c Hc), (IH _ Hl). cbn [rev].
    by rewrite <- app_assoc.
Qed.

Lemma split_comma_piece l rest : forall cur,
  Forall (fun c => plain_char c = true) l ->
  split_comma cur (l ++ ","%char :: rest) =
    (rev cur ++ l)%list :: split_comma [] rest.
Proof.
  induction l as [|c l IH]; intros cur Hl.
  - cbn. by rewrite app_nil_r.
  - apply Forall_cons in Hl as [Hc Hl]. cbn [app split_comma].
    rewrite (plain_char_not_comma c Hc), (IH _ Hl). cbn [rev].
    by rewrite <- app_assoc.
Qed.

Lemma py_split_comma_address_of_tiles t tiles :
  py_split_comma (address_of_tiles (t :: tiles)) =
    map (fun t => py_str (PyInt t)) (t :: tiles).
Proof.
  unfold py_split_comma, address_of_tiles. revert t.
  induction tiles as [|t' tiles IH]; intros t.
  - cbn [map String.concat].
    rewrite (split_comma_plain _ [] (plain_chars_of_int t)). cbn.
    by rewrite string_of_list_ascii_of_string.
  - cbn [map] in IH |- *.
    change (String.concat "," (?a :: ?b :: ?l))
      with (a +:+ String ","%char (String.concat "," (b :: l))).
    rewrite list_ascii_of_string_app. cbn [list_ascii_of_string].
    rewrite (split_comma_piece _ _ [] (plain_chars_of_int t)).
    cbn [rev app map]. rewrite (IH t').
    by rewrite string_of_list_ascii_of_string.
Qed.

(** X7. The address that lists tiles in decimal, joined by commas, is read
    back as these tiles, in order; so for a tile of the grid the address
    spelling its index has the position of the tile as bounding box. *)
Theorem parse_address_of_tiles (g : CoverArtGenerator) (t : Z) (tiles : list Z) :
  parse_address (address_of_tiles (t :: tiles)) = Some (t :: tiles)
  /\ (0 <= t < dimension g * dimension g ->
      calculate_bounding_box g (address_of_tiles [t]) = Ok (get_tile_position g t)).
Proof.
  assert (Hparse : forall t tiles,
            parse_address (address_of_tiles (t :: tiles)) = Some (t :: tiles)).
  { intros t0 tiles0. unfold parse_address.
    rewrite py_split_comma_address_of_tiles. apply mapM_Some_2.
    induction (t0 :: tiles0) as [|a l IH]; [constructor|].
    cbn [map]. constructor; [|exact IH].
    rewrite (py_strip_plain _ (plain_chars_of_int a)). apply py_int_printed. }
  split; [apply Hparse|].
  intros Ht. apply tile_in_range_iff in Ht.
  destruct (bounding_box_loop_first g t [] (Forall_cons_2 _ _ _ Ht (Forall_nil_2 _)))
    as (r & b & Hr & Hrun & Hone & _).
  unfold calculate_bounding_box. rewrite Hparse. cbn [forallb]. rewrite Ht.
  cbn [andb]. rewrite Hrun, Hr, (Hone eq_refl). done.
Qed.

Lemma parse_address_of_tiles_witness :
  parse_address (address_of_tiles [5; 6; 9; 10]) = Some [5; 6; 9; 10]
  /\ calculate_bounding_box example_generator (address_of_tiles [3]) =
       Ok (get_tile_position example_generator 3).
Proof.
  split.
  - apply (parse_address_of_tiles example_generator 5 [6; 9; 10]).
  - apply (parse_address_of_tiles example_generator 3 []). cbn. lia.
Defined.

(** ** Colour codes and the validation of parameters *)

Lemma py_int16_hex2 upper n : 0 <= n <= 255 -> py_int16 (hex2 upper n) = Some n.
Proof.
  intros Hn.
  assert (Hall : forallb (fun n => bool_decide (py_int16 (hex2 true n) = Some n)
                                   && bool_decide (py_int16 (hex2 false n) = Some n))
                         (seqZ 0 256) = true) by (vm_compute; reflexivity).
  rewrite forallb_forall in Hall.
  assert (Hin : In n (seqZ 0 256)) by (apply list_elem_of_In, elem_of_seqZ; lia).
  apply Hall, andb_true_iff in Hin as [Hu Hl].
  apply bool_decide_eq_true in Hu, Hl. by destruct upper.
Qed.

(** X8. A colour written as # and six hexadecimal digits, in lower or upper
    case, is read back as its three components, whatever follows the six
    digits. *)
Theorem parse_color_code_of_color_code upper r g b rest :
  0 <= r <= 255 -> 0 <= g <= 255 -> 0 <= b <= 255 ->
  parse_color_code (color_code upper r g b +:+ rest) = Some (r, g, b).
Proof.
  intros Hr Hg Hb. unfold parse_color_code.
  change (py_slice (color_code upper r g b +:+ rest) 1 3) with (hex2 upper r).
  change (py_slice (color_code upper r g b +:+ rest) 3 5) with (hex2 upper g).
  change (py_slice (color_code upper r g b +:+ rest) 5 7) with (hex2 upper b).
  change (starts_with_hash (color_code upper r g b +:+ rest)) with true.
  cbn [negb]. by rewrite !py_int16_hex2.
Qed.

Lemma parse_color_code_of_color_code_witness :
  parse_color_code (color_code true 255 128 0 +:+ "") = Some (255, 128, 0)
  /\ color_code true 255 128 0 = "#FF8000".
Proof.
  split; [|reflexivity].
  apply (parse_color_code_of_color_code true 255 128 0 ""); lia.
Defined.

Lemma all_ascii_complete c : In c all_ascii.
Proof.
  unfold all_ascii. rewrite <- (ascii_nat_embedding c).
  apply in_map, in_seq. pose proof (nat_ascii_bounded c). lia.
Qed.

Lemma short_hex_checked (l : list ascii) :
  (length l <= 2)%nat -> short_hex_ok l = true.
Proof.
  assert (H1 : forallb (fun c => short_hex_ok [c]) all_ascii = true)
    by (vm_compute; reflexivity).
  assert (H2 : forallb (fun c1 => forallb (fun c2 => short_hex_ok [c1; c2]) all_ascii)
                       all_ascii = true) by (vm_compute; reflexivity).
  rewrite forallb_forall in H1, H2.
  destruct l as [|c1 [|c2 [|c3 l]]]; cbn [length]; intros Hlen.
  - reflexivity.
  - apply H1, all_ascii_complete.
  - pose proof (H2 c1 (all_ascii_complete c1)) as H. rewrite forallb_forall in H.
    apply H, all_ascii_complete.
  - lia.
Qed.

Lemma py_slice_two_bounds s i v :
  py_int16 (py_slice s i (i + 2)) = Some v -> -15 <= v <= 255.
Proof.
  unfold py_slice. replace (i + 2 - i)%nat with 2%nat by lia.
  intros Hv.
  pose proof (short_hex_checked (take 2 (drop i (list_ascii_of_string s)))) as Hok.
  unfold short_hex_ok in Hok. rewrite Hv in Hok.
  assert (Hlen : (length (take 2 (drop i (list_ascii_of_string s))) <= 2)%nat)
    by (rewrite length_take; lia).
  specialize (Hok Hlen). lia.
Qed.

Lemma length_list_ascii_of_string s :
  length (list_ascii_of_string s) = String.length s.
Proof. induction s as [|c s IH]; [done|]. cbn. by rewrite IH. Qed.

(** X9. A code that [parse_color_code] accepts starts with #, has at least
    six characters, and each of its components lies between -15 and 255 (a
    sign is read as part of a component). *)
Theorem parse_color_code_accepts color_code r g b :
  parse_color_code color_code = Some (r, g, b) ->
  starts_with_hash color_code = true
  /\ (6 <= String.length color_code)%nat
  /\ -15 <= r <= 255 /\ -15 <= g <= 255 /\ -15 <= b <= 255.
Proof.
  unfold parse_color_code.
  destruct (starts_with_hash color_code); [|done]. cbn [negb].
  destruct (py_int16 (py_slice color_code 1 3)) as [r'|] eqn:Hr; [|done].
  destruct (py_int16 (py_slice color_code 3 5)) as [g'|] eqn:Hg; [|done].
  destruct (py_int16 (py_slice color_code 5 7)) as [b'|] eqn:Hb; [|done].
  intros [= <- <- <-]. split; [done|]. split.
  - destruct (decide (6 <= String.length color_code)%nat) as [|Hshort]; [done|].
    exfalso. unfold py_slice in Hb.
    rewrite drop_ge in Hb by (rewrite length_list_ascii_of_string; lia).
    discriminate Hb.
  - split; [apply (py_slice_two_bounds color_code 1 r' Hr)|].
    split; [apply (py_slice_two_bounds color_code 3 g' Hg)|].
    apply (py_slice_two_bounds color_code 5 b' Hb).
Qed.

Lemma parse_color_code_accepts_witness :
  starts_with_hash "#-f0a+3" = true
  /\ (6 <= String.length "#-f0a+3")%nat
  /\ -15 <= -15 <= 255 /\ -15 <= 10 <= 255 /\ -15 <= 3 <= 255.
Proof.
  apply (parse_color_code_accepts "#-f0a+3" (-15) 10 3). reflexivity.
Defined.

(** ** The parameters that pass validation *)

(** X10. [validate_parameters] reports the dimension first, then the
    background, then the image size, then an option skip-missing that is not
    a boolean, then an option show-caa that is not a boolean; it accepts
    exactly the attributes with a dimension in 2..5, a background that is
    transparent, white, black or a code [parse_color_code] reads, an image
    size in 128..1024, and two boolean options. *)
Theorem validate_parameters_spec (a : GeneratorAttributes) :
  let dimension_ok := 2 <= attr_dimension a <= 5 in
  let background_ok :=
    attr_background a ∈ ["transparent"; "white"; "black"]
    \/ is_Some (parse_color_code (attr_background a)) in
  let image_size_ok := 128 <= attr_image_size a <= 1024 in
  let skip_missing_ok := is_bool (attr_skip_missing a) = true in
  let show_caa_ok := is_bool (attr_show_caa_image_for_missing_covers a) = true in
  (validate_parameters a = None
   <-> dimension_ok /\ background_ok /\ image_size_ok
       /\ skip_missing_ok /\ show_caa_ok)
  /\ (~ dimension_ok ->
      validate_parameters a =
        Some "dimension must be between {MIN_DIMENSION} and {MAX_DIMENSION}, inclusive.")
  /\ (dimension_ok -> ~ background_ok ->
      validate_parameters a =
        Some ("background must be one of transparent, white, black or a color code #rrggbb, not "
              +:+ attr_background a))
  /\ (dimension_ok -> background_ok -> ~ image_size_ok ->
      validate_parameters a =
        Some "image size must be between 128 and 1024, inclusive.")
  /\ (dimension_ok -> background_ok -> image_size_ok -> ~ skip_missing_ok ->
      validate_parameters a = Some "option skip-missing must be of type boolean.")
  /\ (dimension_ok -> background_ok -> image_size_ok -> skip_missing_ok ->
      ~ show_caa_ok ->
      validate_parameters a = Some "option show-caa must be of type boolean.").
Proof.
  intros dimension_ok background_ok image_size_ok skip_missing_ok show_caa_ok.
  unfold validate_parameters.
  assert (Hd : attr_dimension a
                 ∈ seqZ MIN_DIMENSION (MAX_DIMENSION + 1 - MIN_DIMENSION)
               <-> dimension_ok).
  { rewrite elem_of_seqZ. unfold dimension_ok, MIN_DIMENSION, MAX_DIMENSION. lia. }
  assert (Hb : negb (bool_decide (attr_background a ∈ ["transparent"; "white"; "black"]))
               && negb (bool_decide (is_Some (parse_color_code (attr_background a))))
               = false <-> background_ok).
  { unfold background_ok. rewrite andb_false_iff, !negb_false_iff, !bool_decide_eq_true.
    tauto. }
  assert (Hs : (attr_image_size a <? MIN_IMAGE_SIZE)
               || (MAX_IMAGE_SIZE <? attr_image_size a) = false <-> image_size_ok).
  { unfold image_size_ok, MIN_IMAGE_SIZE, MAX_IMAGE_SIZE. lia. }
  destruct (bool_decide (attr_dimension a
                           ∈ seqZ MIN_DIMENSION (MAX_DIMENSION + 1 - MIN_DIMENSION)))
    eqn:Ed; [apply bool_decide_eq_true in Ed | apply bool_decide_eq_false in Ed];
    cbn [negb].
  2:{ repeat split; try done; tauto. }
  destruct (negb (bool_decide (attr_background a ∈ ["transparent"; "white"; "black"]))
            && negb (bool_decide (is_Some (parse_color_code (attr_background a)))))
    eqn:Eb.
  { assert (~ background_ok) by (intros H; apply Hb in H; congruence).
    repeat split; try done; tauto. }
  destruct ((attr_image_size a <? MIN_IMAGE_SIZE)
            || (MAX_IMAGE_SIZE <? attr_image_size a)) eqn:Es.
  { assert (~ image_size_ok) by (intros H; apply Hs in H; congruence).
    repeat split; try done; tauto. }
  unfold skip_missing_ok, show_caa_ok.
  destruct (is_bool (attr_skip_missing a)); cbn [negb];
    [|repeat split; try done; try tauto; intros (_ & _ & _ & H & _); done].
  destruct (is_bool (attr_show_caa_image_for_missing_covers a)); cbn [negb];
    [|repeat split; try done; try tauto; intros (_ & _ & _ & _ & H); done].
  apply Hd in Ed.
  assert (Pb : background_ok) by (by apply Hb).
  assert (Ps : image_size_ok) by (by apply Hs).
  clear Hd Hb Hs. clearbody dimension_ok background_ok image_size_ok.
  intuition congruence.
Qed.

Lemma validate_parameters_spec_witness :
  validate_parameters example_generator = None
  /\ validate_parameters
       {| attr_dimension := 3; attr_image_size := 600; attr_background := "white";
          attr_skip_missing := FlagOther (PyInt 1);
          attr_show_caa_image_for_missing_covers := FlagBool true |} =
     Some "option skip-missing must be of type boolean.".
Proof.
  split.
  - apply (validate_parameters_spec example_generator).
    split; [cbn; lia|]. split; [right; vm_compute; eauto|].
    split; [cbn; lia|]. split; reflexivity.
  - apply (validate_parameters_spec
             {| attr_dimension := 3; attr_image_size := 600; attr_background := "white";
                attr_skip_missing := FlagOther (PyInt 1);
                attr_show_caa_image_for_missing_covers := FlagBool true |}).
    + cbn. lia.
    + left. cbn. apply list_elem_of_further, list_elem_of_here.
    + cbn. lia.
    + cbn. discriminate.
Defined.

(** ** The shape of the output *)

Lemma bounding_boxes_Forall2 g addrs : forall acc tiles,
  bounding_boxes g addrs acc = Ok tiles ->
  exists new,
    tiles = (acc ++ new)%list
    /\ Forall2 (fun a b => calculate_bounding_box g a = Ok (Some b)) addrs new.
Proof.
  induction addrs as [|a addrs IH]; intros acc tiles.
  - cbn. intros [= <-]. exists []. by rewrite app_nil_r.
  - cbn [bounding_boxes].
    destruct (calculate_bounding_box g a) as [[b|]|e] eqn:Hb; [|done..].
    cbn [rbind]. intros Hrun. destruct (IH _ _ Hrun) as (new & -> & Hall).
    exists (b :: new). rewrite <- app_assoc. split; [done|]. by constructor.
Qed.

Lemma next_cover_suffix g size covers : forall r rest,
  next_cover g size covers = (r, rest) -> rest `suffix_of` covers.
Proof.
  induction covers as [|c covers IH]; intros r rest.
  - cbn. by intros [= <- <-].
  - cbn [next_cover]. intros Hrun. apply suffix_cons_r.
    destruct (py_getitem c "caa_id") as [[| |]|]; try (by injection Hrun as <- <-);
      try (destruct (py_getitem c "caa_release_mbid"); by injection Hrun as <- <-).
    destruct (skip_missing g); [by apply (IH r)|].
    destruct (show_caa_image_for_missing_covers g); by injection Hrun as <- <-.
Qed.

Lemma image_geometry_make_image b u c :
  image_geometry (make_image b u c) = box_geometry b.
Proof. by destruct b as [[[? ?] ?] ?]. Qed.

Lemma place_images_shape g size tiles : forall covers images r rest,
  place_images g size tiles covers images = (r, rest) ->
  rest `suffix_of` covers
  /\ (forall out, r = Ok out ->
        exists new, out = (images ++ new)%list
          /\ (image_geometry <$> new) `sublist_of` (box_geometry <$> tiles)).
Proof.
  induction tiles as [|b tiles IH]; intros covers images r rest.
  - cbn. intros [= <- <-]. split; [done|]. intros out [= <-].
    exists []. by rewrite app_nil_r.
  - cbn [place_images].
    destruct (next_cover g size covers) as [[[[u|] c]|e] rest'] eqn:Hnext;
      pose proof (next_cover_suffix _ _ _ _ _ Hnext) as Hsuf.
    + intros Hrun. destruct (IH _ _ _ _ Hrun) as [Hsuf' Hout].
      split; [by etrans|]. intros out Hr.
      destruct (Hout out Hr) as (new & -> & Hsub).
      exists (make_image b u c :: new). rewrite <- app_assoc. split; [done|].
      cbn [fmap list_fmap]. rewrite image_geometry_make_image.
      by apply sublist_skip.
    + intros Hrun. destruct (IH _ _ _ _ Hrun) as [Hsuf' Hout].
      split; [by etrans|]. intros out Hr.
      destruct (Hout out Hr) as (new & -> & Hsub).
      exists new. split; [done|]. cbn [fmap list_fmap]. by apply sublist_cons.
    + intros [= <- <-]. split; [done|]. done.
Qed.

(** X11. Whatever a call returns or raises, the candidates left are a final
    segment of those received; and when it returns, the places of the images
    are, in order, places of the bounding boxes of the chosen addresses, at
    most one image per address. *)
Theorem generate_from_caa_ids_shape g covers tile_addrs layout size r rest :
  generate_from_caa_ids g covers tile_addrs layout size = (r, rest) ->
  rest `suffix_of` covers
  /\ (forall out, r = Ok out ->
        exists addrs tiles,
          select_addrs g tile_addrs layout = Ok addrs
          /\ Forall2 (fun a b => calculate_bounding_box g a = Ok (Some b)) addrs tiles
          /\ (image_geometry <$> out) `sublist_of` (box_geometry <$> tiles)
          /\ (length out <= length addrs)%nat).
Proof.
  unfold generate_from_caa_ids.
  destruct (select_addrs g tile_addrs layout) as [addrs|e]; [|by intros [= <- <-]].
  destruct (bounding_boxes g addrs []) as [tiles|e] eqn:Hboxes; [|by intros [= <- <-]].
  intros Hrun. destruct (place_images_shape _ _ _ _ _ _ _ Hrun) as [Hsuf Hout].
  split; [done|]. intros out Hr. destruct (Hout out Hr) as (new & -> & Hsub).
  destruct (bounding_boxes_Forall2 _ _ _ _ Hboxes) as (tiles' & -> & Hall).
  exists addrs, tiles'. cbn [app] in *. split; [done|]. split; [done|].
  split; [done|]. apply sublist_length in Hsub.
  rewrite !length_fmap in Hsub. by rewrite (Forall2_length _ _ _ Hall).
Qed.

Lemma generate_from_caa_ids_shape_witness :
  [cover_with_artwork] `suffix_of`
    [cover_without_artwork; cover_with_artwork; cover_with_artwork].
Proof.
  apply (generate_from_caa_ids_shape example_generator
           [cover_without_artwork; cover_with_artwork; cover_with_artwork]
           (Some ["3"]) None 500 _ _ eq_refl).
Defined.

(** ** Candidates with artwork, one per address *)

Lemma next_cover_artwork g size c covers :
  size = 250 \/ size = 500 -> has_artwork c ->
  next_cover g size (c :: covers) = (Ok (Some (archive_url c size), c), covers).
Proof.
  intros Hsize (caa_id & mbid & Hid & Hnn & Hmbid).
  cbn [next_cover]. unfold py_getitem, archive_url, py_get.
  rewrite Hid, Hmbid. cbn [default].
  destruct caa_id; [done | |]; destruct Hsize as [-> | ->]; reflexivity.
Qed.

Lemma place_images_artwork g size tiles : forall covers images,
  size = 250 \/ size = 500 ->
  Forall has_artwork covers ->
  place_images g size tiles covers images =
    (Ok (images
         ++ zip_with (fun b c => make_image b (archive_url c size) c) tiles covers
         ++ (if show_caa_image_for_missing_covers g
             then placeholder_image <$> drop (length covers) tiles else []))%list,
     drop (length tiles) covers).
Proof.
  induction tiles as [|b tiles IH]; intros covers images Hsize Hall.
  - cbn. destruct (show_caa_image_for_missing_covers g);
      rewrite ?drop_nil; cbn; by rewrite app_nil_r.
  - destruct covers as [|c covers].
    + rewrite (place_images_exhausted g size (b :: tiles) [] images eq_refl).
      cbn [zip_with length drop app]. done.
    + apply Forall_cons in Hall as [Hc Hall]. cbn [place_images].
      rewrite (next_cover_artwork g size c covers Hsize Hc).
      rewrite (IH covers _ Hsize Hall). cbn [zip_with length drop].
      by rewrite <- app_assoc.
Qed.

(** X12. With a supported size and candidates that all have artwork, the
    i-th address gets the i-th candidate: the images are the candidates
    paired with the boxes in order, each with its archive URL, followed by
    one placeholder per address left over when placeholders are shown; as
    many candidates as there are addresses are consumed. *)
Theorem generate_from_caa_ids_all_artwork g covers tile_addrs layout size addrs tiles :
  size = 250 \/ size = 500 ->
  Forall has_artwork covers ->
  select_addrs g tile_addrs layout = Ok addrs ->
  bounding_boxes g addrs [] = Ok tiles ->
  generate_from_caa_ids g covers tile_addrs layout size =
    (Ok (zip_with (fun b c => make_image b (archive_url c size) c) tiles covers
         ++ (if show_caa_image_for_missing_covers g
             then placeholder_image <$> drop (length covers) tiles else []))%list,
     drop (length tiles) covers).
Proof.
  intros Hsize Hall Hsel Hboxes. unfold generate_from_caa_ids.
  rewrite Hsel, Hboxes. by rewrite place_images_artwork.
Qed.

Lemma has_artwork_example : has_artwork cover_with_artwork.
Proof. exists (PyInt 123), (PyStr "release-b"). by vm_compute. Qed.

Lemma generate_from_caa_ids_all_artwork_witness :
  exists img1 img2,
    generate_from_caa_ids example_generator
      [cover_with_artwork; cover_with_artwork; cover_with_artwork]
      (Some ["0"; "1,3"]) None 250 = (Ok [img1; img2], [cover_with_artwork])
    /\ image_geometry img1 = (0, 0, 250, 250)
    /\ image_geometry img2 = (250, 0, 249, 499).
Proof.
  do 2 eexists. split.
  - apply (generate_from_caa_ids_all_artwork example_generator
             [cover_with_artwork; cover_with_artwork; cover_with_artwork]
             (Some ["0"; "1,3"]) None 250 ["0"; "1,3"]
             [(0, 0, 250, 250); (250, 0, 499, 499)]);
      [by left | repeat constructor; apply has_artwork_example
      | reflexivity | reflexivity].
  - split; reflexivity.
Defined.

(** ** What a call can raise *)

Lemma next_cover_raises g size covers : forall e rest,
  next_cover g size covers = (Raise e, rest) ->
  exists c key, c ∈ covers /\ missing_key c key /\ e = KeyError (PyStr key).
Proof.
  induction covers as [|c covers IH]; intros e rest; [done|].
  cbn [next_cover]. unfold py_getitem.
  destruct (c !! "caa_id") as [caa_id|] eqn:Hid.
  2:{ intros [= <- <-]. exists c, "caa_id". split; [apply list_elem_of_here|].
      split; [by left | done]. }
  destruct caa_id as [|n|s].
  - destruct (skip_missing g).
    + intros Hrun. destruct (IH _ _ Hrun) as (c0 & key & Hin & Hkey & ->).
      exists c0, key. split; [by apply list_elem_of_further | done].
    + by destruct (show_caa_image_for_missing_covers g).
  - destruct (c !! "caa_release_mbid") eqn:Hm; [done|].
    intros [= <- <-]. exists c, "caa_release_mbid".
    split; [apply list_elem_of_here|]. split; [|done]. right.
    split; [done|]. split; [done|]. by exists (PyInt n).
  - destruct (c !! "caa_release_mbid") eqn:Hm; [done|].
    intros [= <- <-]. exists c, "caa_release_mbid".
    split; [apply list_elem_of_here|]. split; [|done]. right.
    split; [done|]. split; [done|]. by exists (PyStr s).
Qed.

Lemma place_images_raises g size tiles : forall covers images e rest,
  place_images g size tiles covers images = (Raise e, rest) ->
  exists c key, c ∈ covers /\ missing_key c key /\ e = KeyError (PyStr key).
Proof.
  induction tiles as [|b tiles IH]; intros covers images e rest; [done|].
  cbn [place_images].
  destruct (next_cover g size covers) as [[[[u|] c]|e'] rest'] eqn:Hnext.
  - intros Hrun. destruct (IH _ _ _ _ Hrun) as (c0 & key & Hin & Hkey & ->).
    exists c0, key. split; [|done].
    destruct (next_cover_suffix _ _ _ _ _ Hnext) as [k ->].
    apply elem_of_app. by right.
  - intros Hrun. destruct (IH _ _ _ _ Hrun) as (c0 & key & Hin & Hkey & ->).
    exists c0, key. split; [|done].
    destruct (next_cover_suffix _ _ _ _ _ Hnext) as [k ->].
    apply elem_of_app. by right.
  - intros [= <- <-]. by apply (next_cover_raises _ _ _ _ _ Hnext).
Qed.

Lemma bounding_boxes_raises g addrs : forall acc e,
  bounding_boxes g addrs acc = Raise e ->
  exists addr, addr ∈ addrs /\ address_valid g addr = false
    /\ e = ValueError ("Invalid address " +:+ addr +:+ " specified.").
Proof.
  induction addrs as [|a addrs IH]; intros acc e; [done|].
  cbn [bounding_boxes].
  destruct (address_valid g a) eqn:Ha.
  - destruct (calculate_bounding_box_valid g a Ha) as (b & ->). cbn [rbind].
    intros Hrun. destruct (IH _ _ Hrun) as (addr & Hin & Hbad & ->).
    exists addr. split; [by apply list_elem_of_further | done].
  - rewrite (calculate_bounding_box_invalid g a Ha). cbn [rbind].
    intros [= <-]. exists a. split; [apply list_elem_of_here | done].
Qed.

(** X13. A call raises for one of three reasons only: the lookup of the
    layout in the catalog raised; an address is invalid, and then the
    candidates are untouched; or a candidate lacks the key caa_id, or has
    artwork and lacks the key caa_release_mbid, and then the error is the
    [KeyError] of that key. *)
Theorem generate_from_caa_ids_raises g covers tile_addrs layout size e rest :
  generate_from_caa_ids g covers tile_addrs layout size = (Raise e, rest) ->
  (select_addrs g tile_addrs layout = Raise e /\ rest = covers)
  \/ (exists addrs addr,
        select_addrs g tile_addrs layout = Ok addrs /\ addr ∈ addrs
        /\ address_valid g addr = false
        /\ e = ValueError ("Invalid address " +:+ addr +:+ " specified.")
        /\ rest = covers)
  \/ (exists c key, c ∈ covers /\ missing_key c key /\ e = KeyError (PyStr key)).
Proof.
  unfold generate_from_caa_ids.
  destruct (select_addrs g tile_addrs layout) as [addrs|e0]; [|intros [= <- <-]; by left].
  destruct (bounding_boxes g addrs []) as [tiles|e0] eqn:Hboxes.
  - intros Hrun. right. right. by apply (place_images_raises _ _ _ _ _ _ _ Hrun).
  - intros [= <- <-]. right. left.
    destruct (bounding_boxes_raises _ _ _ _ Hboxes) as (addr & Hin & Hbad & ->).
    by exists addrs, addr.
Qed.

Lemma generate_from_caa_ids_raises_witness :
  exists c key,
    c ∈ [cover_with_artwork; cover_without_caa_id]
    /\ missing_key c key /\ KeyError (PyStr "caa_id") = KeyError (PyStr key).
Proof.
  destruct (generate_from_caa_ids_raises example_generator
              [cover_with_artwork; cover_without_caa_id]
              None None 500 (KeyError (PyStr "caa_id")) []
              ltac:(vm_compute; reflexivity))
    as [[Hsel _] | [(addrs & addr & Hsel & Hin & Hbad & He & _) | H]].
  - discriminate Hsel.
  - discriminate He.
  - exact H.
Defined.

(** ** Layouts of the catalog *)

Lemma address_valid_dimension g g' address :
  dimension g = dimension g' -> address_valid g address = address_valid g' address.
Proof.
  intros Hd. unfold address_valid.
  destruct (parse_address address) as [tiles|]; [|done].
  induction tiles as [|t tiles IH]; [done|]. cbn [forallb].
  rewrite IH. f_equal. unfold tile_in_range. by rewrite Hd.
Qed.

Lemma py_list_index_elem {A} (l : list A) i a : py_list_index l i = Ok a -> a ∈ l.
Proof.
  unfold py_list_index.
  destruct ((_ <? 0) || _); [done|].
  destruct (l !! _) eqn:Hl; [|done]. intros [= <-].
  by apply list_elem_of_lookup_2 in Hl.
Qed.

Lemma catalog_addresses_valid d designs design :
  GRID_TILE_DESIGNS !! d = Some designs -> design ∈ designs ->
  forallb (address_valid (generator_of_dimension d)) design = true
  /\ design_is_partition d design = true.
Proof.
  intros Hd Hin.
  assert (Hall : forallb (fun '(d, designs) =>
                   forallb (fun design =>
                     forallb (address_valid (generator_of_dimension d)) design
                     && design_is_partition d design) designs)
                   catalog_entries = true) by (vm_compute; reflexivity).
  rewrite forallb_forall in Hall.
  apply elem_of_map_to_list, list_elem_of_In, Hall in Hd.
  rewrite forallb_forall in Hd. apply list_elem_of_In, Hd in Hin.
  by apply andb_true_iff in Hin.
Qed.

Lemma select_addrs_catalog g tile_addrs layout addrs :
  is_Some layout \/ tile_addrs = None ->
  select_addrs g tile_addrs layout = Ok addrs ->
  exists designs,
    GRID_TILE_DESIGNS !! dimension g = Some designs /\ addrs ∈ designs.
Proof.
  intros Hcat. unfold select_addrs.
  destruct (GRID_TILE_DESIGNS !! dimension g) as [designs|] eqn:Hd.
  - destruct layout as [i|].
    + intros Hi. exists designs. split; [done|]. by apply (py_list_index_elem _ i).
    + destruct Hcat as [[? [=]]| ->].
      intros Hi. exists designs. split; [done|]. by apply (py_list_index_elem _ 0).
  - destruct layout as [i|]; [done|]. by destruct Hcat as [[? [=]]| ->].
Qed.

Lemma select_addrs_raises g tile_addrs layout e :
  select_addrs g tile_addrs layout = Raise e ->
  e = KeyError (PyInt (dimension g)) \/ e = IndexError "list index out of range".
Proof.
  unfold select_addrs.
  assert (Hidx : forall (designs : list (list string)) i,
            py_list_index designs i = Raise e ->
            e = IndexError "list index out of range").
  { intros designs i. unfold py_list_index.
    destruct ((_ <? 0) || _); [by intros [= <-]|].
    destruct (designs !! _); [done | by intros [= <-]]. }
  destruct (GRID_TILE_DESIGNS !! dimension g) as [designs|].
  - destruct layout as [i|]; [intros H; right; by apply (Hidx designs i)|].
    destruct tile_addrs; [done|]. intros H; right; by apply (Hidx designs 0).
  - destruct layout as [i|]; [intros [= <-]; by left|].
    destruct tile_addrs; [done|]. intros [= <-]; by left.
Qed.

(** X14. A layout taken from the catalog (by index, or the default when no
    addresses are given) has valid addresses only and partitions the grid:
    the call then never raises the invalid-address error; what the choice of
    the layout itself can raise is the [KeyError] of a dimension without
    designs or the [IndexError] of an index out of range. *)
Theorem catalog_layout_never_invalid g covers tile_addrs layout size :
  is_Some layout \/ tile_addrs = None ->
  (forall addrs, select_addrs g tile_addrs layout = Ok addrs ->
     design_is_partition (dimension g) addrs = true
     /\ exists tiles, bounding_boxes g addrs [] = Ok tiles
                      /\ length tiles = length addrs)
  /\ (forall e, select_addrs g tile_addrs layout = Raise e ->
        e = KeyError (PyInt (dimension g)) \/ e = IndexError "list index out of range")
  /\ (forall msg rest,
        generate_from_caa_ids g covers tile_addrs layout size
        <> (Raise (ValueError msg), rest)).
Proof.
  intros Hcat.
  assert (Hvalid : forall addrs, select_addrs g tile_addrs layout = Ok addrs ->
            Forall (fun a => address_valid g a = true) addrs
            /\ design_is_partition (dimension g) addrs = true).
  { intros addrs Hsel.
    destruct (select_addrs_catalog g tile_addrs layout addrs Hcat Hsel)
      as (designs & Hd & Hin).
    destruct (catalog_addresses_valid _ _ _ Hd Hin) as [Hall Hpart].
    split; [|done]. apply forallb_Forall_true in Hall.
    eapply Forall_impl; [exact Hall|]. intros a Ha.
    by rewrite (address_valid_dimension g (generator_of_dimension (dimension g))). }
  split; [|split].
  - intros addrs Hsel. destruct (Hvalid addrs Hsel) as [Hall Hpart].
    split; [done|].
    destruct (bounding_boxes g addrs []) as [tiles|e] eqn:Hboxes.
    + exists tiles. split; [done|].
      destruct (bounding_boxes_Forall2 _ _ _ _ Hboxes) as (new & -> & H2).
      cbn [app]. by rewrite (Forall2_length _ _ _ H2).
    + destruct (bounding_boxes_raises _ _ _ _ Hboxes) as (addr & Hin & Hbad & _).
      rewrite Forall_forall in Hall. rewrite (Hall addr Hin) in Hbad. done.
  - intros e. apply select_addrs_raises.
  - intros msg rest Hrun.
    unfold generate_from_caa_ids in Hrun.
    destruct (select_addrs g tile_addrs layout) as [addrs|e] eqn:Hsel.
    + destruct (Hvalid addrs eq_refl) as [Hall _].
      destruct (bounding_boxes g addrs []) as [tiles|e] eqn:Hboxes.
      * destruct (place_images_raises _ _ _ _ _ _ _ Hrun) as (c & key & _ & _ & He).
        discriminate He.
      * destruct (bounding_boxes_raises _ _ _ _ Hboxes) as (addr & Hin & Hbad & _).
        rewrite Forall_forall in Hall. rewrite (Hall addr Hin) in Hbad. done.
    + injection Hrun as -> _.
      destruct (select_addrs_raises _ _ _ _ Hsel) as [He|He]; discriminate He.
Qed.

Lemma catalog_layout_never_invalid_witness :
  design_is_partition 2 ["0"; "1"; "2"; "3"] = true
  /\ exists tiles, bounding_boxes example_generator ["0"; "1"; "2"; "3"] [] = Ok tiles
                   /\ length tiles = 4%nat.
Proof.
  refine (proj1 (catalog_layout_never_invalid example_generator [] None (Some (-1)) 500
                   (or_introl (mk_is_Some _ _ eq_refl))) ["0"; "1"; "2"; "3"] eq_refl).
Defined.

(** ** Sizes, placeholders and the number of images *)

Lemma resolve_cover_art_unsupported caa_id mbid size :
  size <> 250 -> size <> 500 -> resolve_cover_art caa_id mbid size = None.
Proof.
  intros H250 H500. unfold resolve_cover_art.
  destruct (Z.eqb_spec size 250); [done|]. by destruct (Z.eqb_spec size 500).
Qed.

Lemma resolve_cover_art_supported caa_id mbid size :
  size = 250 \/ size = 500 -> is_Some (resolve_cover_art caa_id mbid size).
Proof. intros [-> | ->]; by eexists. Qed.

Lemma next_cover_unsupported g size covers : forall u c rest,
  size <> 250 -> size <> 500 ->
  next_cover g size covers = (Ok (Some u, c), rest) ->
  u = CAA_MISSING_IMAGE /\ show_caa_image_for_missing_covers g = true.
Proof.
  induction covers as [|c0 covers IH]; intros u c rest H250 H500.
  - cbn. destruct (show_caa_image_for_missing_covers g); [|done]. by intros [= <- _ _].
  - cbn [next_cover].
    destruct (py_getitem c0 "caa_id") as [[| |]|]; [| | |done].
    + destruct (skip_missing g); [by apply IH|].
      destruct (show_caa_image_for_missing_covers g); [|done]. by intros [= <- _ _].
    + destruct (py_getitem c0 "caa_release_mbid"); [|done].
      by rewrite resolve_cover_art_unsupported.
    + destruct (py_getitem c0 "caa_release_mbid"); [|done].
      by rewrite resolve_cover_art_unsupported.
Qed.

Lemma place_images_unsupported g size tiles : forall covers images out rest,
  size <> 250 -> size <> 500 ->
  place_images g size tiles covers images = (Ok out, rest) ->
  exists new, out = (images ++ new)%list
    /\ Forall (fun img => url img = CAA_MISSING_IMAGE) new
    /\ (show_caa_image_for_missing_covers g = false -> new = []).
Proof.
  induction tiles as [|b tiles IH]; intros covers images out rest H250 H500.
  - cbn. intros [= <- _]. exists []. by rewrite app_nil_r.
  - cbn [place_images].
    destruct (next_cover g size covers) as [[[[u|] c]|e] rest'] eqn:Hnext; [| |done].
    + destruct (next_cover_unsupported _ _ _ _ _ _ H250 H500 Hnext) as [-> Hshow].
      intros Hrun. destruct (IH _ _ _ _ H250 H500 Hrun) as (new & -> & Hall & _).
      exists (make_image b CAA_MISSING_IMAGE c :: new). rewrite <- app_assoc.
      split; [done|]. split; [|congruence].
      constructor; [by destruct b as [[[? ?] ?] ?] | done].
    + intros Hrun. by apply (IH _ _ _ _ H250 H500 Hrun).
Qed.

(** X15. With a size other than 250 and 500 no artwork is shown: every
    image of the output carries the placeholder URL, and without the
    placeholder option the output is empty. *)
Theorem generate_from_caa_ids_unsupported_size g covers tile_addrs layout size out rest :
  size <> 250 -> size <> 500 ->
  generate_from_caa_ids g covers tile_addrs layout size = (Ok out, rest) ->
  Forall (fun img => url img = CAA_MISSING_IMAGE) out
  /\ (show_caa_image_for_missing_covers g = false -> out = []).
Proof.
  intros H250 H500. unfold generate_from_caa_ids.
  destruct (select_addrs g tile_addrs layout) as [addrs|e]; [|done].
  destruct (bounding_boxes g addrs []) as [tiles|e]; [|done].
  intros Hrun.
  destruct (place_images_unsupported _ _ _ _ _ _ _ H250 H500 Hrun) as (new & -> & H).
  exact H.
Qed.

Lemma generate_from_caa_ids_unsupported_size_witness :
  Forall (fun img => url img = CAA_MISSING_IMAGE)
    [ {| x := 0; y := 0; width := 250; height := 250; url := CAA_MISSING_IMAGE;
         entity_mbid := PyNone; title := PyNone; artist := PyNone |} ].
Proof.
  refine (proj1 (generate_from_caa_ids_unsupported_size example_generator
                   [cover_with_artwork] (Some ["1"; "0"]) None 300 _ [] _ _ eq_refl));
    lia.
Defined.

Lemma next_cover_shown g size covers : forall r rest,
  show_caa_image_for_missing_covers g = true ->
  size = 250 \/ size = 500 ->
  next_cover g size covers = (Ok r, rest) -> is_Some r.1.
Proof.
  induction covers as [|c0 covers IH]; intros r rest Hshow Hsize.
  - cbn. rewrite Hshow. by intros [= <- _].
  - cbn [next_cover].
    destruct (py_getitem c0 "caa_id") as [[| |]|]; [| | |done].
    + destruct (skip_missing g); [by apply IH|]. rewrite Hshow. by intros [= <- _].
    + destruct (py_getitem c0 "caa_release_mbid"); [|done]. intros [= <- _].
      by apply resolve_cover_art_supported.
    + destruct (py_getitem c0 "caa_release_mbid"); [|done]. intros [= <- _].
      by apply resolve_cover_art_supported.
Qed.

Lemma place_images_shown g size tiles : forall covers images out rest,
  show_caa_image_for_missing_covers g = true ->
  size = 250 \/ size = 500 ->
  place_images g size tiles covers images = (Ok out, rest) ->
  exists new, out = (images ++ new)%list
    /\ image_geometry <$> new = box_geometry <$> tiles.
Proof.
  induction tiles as [|b tiles IH]; intros covers images out rest Hshow Hsize.
  - cbn. intros [= <- _]. exists []. by rewrite app_nil_r.
  - cbn [place_images].
    destruct (next_cover g size covers) as [[[u c]|e] rest'] eqn:Hnext; [|done].
    destruct (next_cover_shown _ _ _ _ _ Hshow Hsize Hnext) as [u' Hu].
    cbn in Hu. subst u.
    intros Hrun. destruct (IH _ _ _ _ Hshow Hsize Hrun) as (new & -> & Hgeo).
    exists (make_image b u' c :: new). rewrite <- app_assoc. split; [done|].
    cbn [fmap list_fmap]. rewrite image_geometry_make_image. by f_equal.
Qed.

(** X16. With the placeholder option and a supported size every address
    gets exactly one image: the places of the images are those of the
    bounding boxes, address by address. *)
Theorem generate_from_caa_ids_one_image_per_address g covers tile_addrs layout size
    addrs tiles out rest :
  show_caa_image_for_missing_covers g = true ->
  size = 250 \/ size = 500 ->
  select_addrs g tile_addrs layout = Ok addrs ->
  bounding_boxes g addrs [] = Ok tiles ->
  generate_from_caa_ids g covers tile_addrs layout size = (Ok out, rest) ->
  image_geometry <$> out = box_geometry <$> tiles
  /\ length out = length addrs.
Proof.
  intros Hshow Hsize Hsel Hboxes. unfold generate_from_caa_ids.
  rewrite Hsel, Hboxes. intros Hrun.
  destruct (place_images_shown _ _ _ _ _ _ _ Hshow Hsize Hrun) as (new & -> & Hgeo).
  cbn [app]. split; [done|].
  destruct (bounding_boxes_Forall2 _ _ _ _ Hboxes) as (tiles' & -> & H2).
  cbn [app] in Hgeo. apply (f_equal length) in Hgeo.
  rewrite !length_fmap in Hgeo. by rewrite Hgeo, (Forall2_length _ _ _ H2).
Qed.

Lemma generate_from_caa_ids_one_image_per_address_witness :
  exists out rest,
    generate_from_caa_ids example_generator
      [cover_without_artwork; cover_with_artwork] (Some ["2,3"; "0"; "1"]) None 500
    = (Ok out, rest)
    /\ image_geometry <$> out = [(0, 250, 499, 249); (0, 0, 250, 250); (250, 0, 249, 250)]
    /\ length out = 3%nat.
Proof.
  do 2 eexists. split; [vm_compute; reflexivity|].
  apply (generate_from_caa_ids_one_image_per_address example_generator
           [cover_without_artwork; cover_with_artwork] (Some ["2,3"; "0"; "1"]) None 500
           ["2,3"; "0"; "1"] [(0, 250, 499, 499); (0, 0, 250, 250); (250, 0, 499, 250)]
           _ []); [reflexivity | by right | reflexivity | reflexivity |].
  vm_compute. reflexivity.
Defined.

Lemma next_cover_no_skip g size c covers :
  skip_missing g = false ->
  exists r, next_cover g size (c :: covers) = (r, covers).
Proof.
  intros Hskip. cbn [next_cover]. rewrite Hskip.
  destruct (py_getitem c "caa_id") as [[| |]|]; try (by eexists);
    try (destruct (py_getitem c "caa_release_mbid"); by eexists).
  destruct (show_caa_image_for_missing_covers g); by eexists.
Qed.

Lemma place_images_no_skip g size tiles : forall covers images out rest,
  skip_missing g = false ->
  place_images g size tiles covers images = (Ok out, rest) ->
  rest = drop (length tiles) covers.
Proof.
  induction tiles as [|b tiles IH]; intros covers images out rest Hskip.
  - cbn. by intros [= _ <-].
  - cbn [place_images length].
    destruct covers as [|c covers].
    + cbn [next_cover].
      destruct (show_caa_image_for_missing_covers g); intros Hrun;
        rewrite (IH _ _ _ _ Hskip Hrun); by rewrite !drop_nil.
    + destruct (next_cover_no_skip g size c covers Hskip) as (r & ->).
      destruct r as [[[u|] c']|e]; [| |done]; intros Hrun;
        by rewrite (IH _ _ _ _ Hskip Hrun).
Qed.

(** X17. Without skip_missing every address consumes one candidate, with
    or without artwork: a call that returns leaves the candidates after the
    first n, n being the number of addresses. *)
Theorem generate_from_caa_ids_no_skip g covers tile_addrs layout size addrs out rest :
  skip_missing g = false ->
  select_addrs g tile_addrs layout = Ok addrs ->
  generate_from_caa_ids g covers tile_addrs layout size = (Ok out, rest) ->
  rest = drop (length addrs) covers.
Proof.
  intros Hskip Hsel. unfold generate_from_caa_ids. rewrite Hsel.
  destruct (bounding_boxes g addrs []) as [tiles|e] eqn:Hboxes; [|done].
  intros Hrun. rewrite (place_images_no_skip _ _ _ _ _ _ _ Hskip Hrun).
  destruct (bounding_boxes_Forall2 _ _ _ _ Hboxes) as (tiles' & -> & H2).
  cbn [app]. by rewrite (Forall2_length _ _ _ H2).
Qed.

Lemma generate_from_caa_ids_no_skip_witness :
  [cover_with_artwork] =
    drop (length ["0"; "1"])
      [cover_without_artwork; cover_without_artwork; cover_with_artwork].
Proof.
  eapply (generate_from_caa_ids_no_skip example_generator_no_skip
            [cover_without_artwork; cover_without_artwork; cover_with_artwork]
            (Some ["0"; "1"]) None 500 ["0"; "1"]); [reflexivity | reflexivity |].
  vm_compute. reflexivity.
Defined.

(** ** Images of a validated generator *)

Lemma validate_parameters_ranges (g : CoverArtGenerator) :
  validate_parameters g = None ->
  2 <= dimension g <= 5 /\ 128 <= image_size g <= 1024.
Proof.
  unfold validate_parameters, attributes_of.
  cbn [attr_dimension attr_image_size attr_background].
  destruct (bool_decide _) eqn:Ed; [|done]. cbn [negb].
  apply bool_decide_eq_true, elem_of_seqZ in Ed.
  destruct (negb _ && negb _); [done|].
  destruct ((image_size g <? MIN_IMAGE_SIZE) || (MAX_IMAGE_SIZE <? image_size g)) eqn:Es;
    [done|].
  intros _. unfold MIN_DIMENSION, MAX_DIMENSION, MIN_IMAGE_SIZE, MAX_IMAGE_SIZE in *. lia.
Qed.

Lemma tile_position_extent conn d size bg skip show g tile x1 y1 x2 y2 :
  init conn d size bg skip show = Ok g ->
  0 < d -> 0 < size ->
  get_tile_position g tile = Some (x1, y1, x2, y2) ->
  size / d - 1 <= x2 - x1 /\ size / d - 1 <= y2 - y1.
Proof.
  intros Hinit Hd Hsize Hpos.
  destruct (init_inv _ _ _ _ _ _ _ Hinit) as (_ & Hdim & Hsz & Hts & _).
  destruct (tile_in_range g tile) eqn:Hin.
  2:{ by rewrite get_tile_position_out_of_range in Hpos. }
  rewrite get_tile_position_in_range in Hpos by done.
  apply tile_in_range_iff in Hin. rewrite Hdim in *. rewrite Hsz, Hts in Hpos.
  destruct (tile_row_col d tile Hd Hin) as (Hc & Hr & _).
  assert (Hq : 0 <= size / d) by (apply Z.div_pos; lia).
  assert (Hm : d * (size / d) <= size) by (apply Z.mul_div_le; lia).
  injection Hpos as <- <- <- <-.
  destruct (Z.eqb_spec (tile mod d) (d - 1)) as [Ec|Ec];
    destruct (Z.eqb_spec (tile / d) (d - 1)) as [Er|Er];
    rewrite ?Ec, ?Er; nia.
Qed.

Lemma bounding_box_within conn d size bg skip show g address b :
  init conn d size bg skip show = Ok g ->
  0 < d -> 0 < size ->
  calculate_bounding_box g address = Ok (Some b) ->
  forall img, image_geometry img = box_geometry b -> image_within size (size / d - 1) img.
Proof.
  intros Hinit Hd Hsize Hbox img Hgeo.
  destruct b as [[[x1 y1] x2] y2].
  pose proof (bounding_box_bounds _ _ _ _ _ _ _ _ _ _ _ _ Hinit Hd Hsize Hbox) as Hin.
  pose proof Hbox as Hrun. unfold calculate_bounding_box in Hrun.
  destruct (parse_address address) as [tiles|] eqn:Hp; [|done].
  destruct (forallb (tile_in_range g) tiles) eqn:Hall; [|done]. clear Hrun.
  apply forallb_Forall_true in Hall.
  destruct (calculate_bounding_box_hull g address tiles Hp Hall)
    as (bb & Hbb & Hcont & _ & t & [[[a b] c] e] & Ht & Hr).
  rewrite Hbb in Hbox. injection Hbox as ->.
  pose proof (Hcont t _ Ht Hr) as Hc. simpl in Hc.
  pose proof (tile_position_extent _ _ _ _ _ _ _ _ _ _ _ _ Hinit Hd Hsize Hr) as Hext.
  unfold image_geometry in Hgeo. cbn in Hgeo. injection Hgeo as Hx Hy Hw Hh.
  unfold image_within. rewrite Hx, Hy, Hw, Hh. lia.
Qed.

(** X18. A generator that is built by the constructor and passes
    [validate_parameters] only makes images that lie inside the canvas of
    image_size pixels and are at least tile_size - 1, hence at least 24,
    pixels wide and high. *)
Theorem validated_images_within conn d size bg skip show g covers tile_addrs layout
    cover_art_size out rest :
  init conn d size bg skip show = Ok g ->
  validate_parameters g = None ->
  generate_from_caa_ids g covers tile_addrs layout cover_art_size = (Ok out, rest) ->
  24 <= size / d - 1
  /\ Forall (image_within size (size / d - 1)) out.
Proof.
  intros Hinit Hvalid Hrun.
  destruct (init_inv _ _ _ _ _ _ _ Hinit) as (_ & Hdim & Hsz & _).
  destruct (validate_parameters_ranges g Hvalid) as [Hd Hs].
  rewrite Hdim in Hd. rewrite Hsz in Hs.
  split.
  { assert (25 <= size / d) by (apply Z.div_le_lower_bound; lia). lia. }
  unfold generate_from_caa_ids in Hrun.
  destruct (select_addrs g tile_addrs layout) as [addrs|e]; [|done].
  destruct (bounding_boxes g addrs []) as [tiles|e] eqn:Hboxes; [|done].
  destruct (place_images_shape _ _ _ _ _ _ _ Hrun) as [_ Hout].
  destruct (Hout out eq_refl) as (new & -> & Hsub). cbn [app].
  destruct (bounding_boxes_Forall2 _ _ _ _ Hboxes) as (tiles' & -> & H2).
  cbn [app] in Hsub.
  apply Forall_forall. intros img Himg.
  assert (Hgeo : image_geometry img ∈ box_geometry <$> tiles').
  { apply (elem_of_sublist (image_geometry <$> new)); [|done].
    by apply list_elem_of_fmap_2. }
  apply list_elem_of_fmap in Hgeo as (b & Hgeo & Hb).
  apply list_elem_of_lookup in Hb as (i & Hi).
  destruct (Forall2_lookup_r _ _ _ _ _ H2 Hi) as (a & _ & Hcalc).
  apply (bounding_box_within conn d size bg skip show g a b); auto; lia.
Qed.

Lemma validated_images_within_witness :
  24 <= 500 / 2 - 1
  /\ Forall (image_within 500 (500 / 2 - 1))
       [make_image (0, 0, 499, 250) (archive_url cover_with_artwork 500)
          cover_with_artwork].
Proof.
  apply (validated_images_within "" 2 500 "#FFFFFF" true true example_generator
           [cover_with_artwork] (Some ["0,1"]) None 500 _ [] eq_refl).
  - vm_compute. reflexivity.
  - vm_compute. reflexivity.
Defined.

(** ** Images loaded from release identifiers *)

Lemma next_cover_member g size covers : forall u c rest,
  next_cover g size covers = (Ok (u, c), rest) -> c = ∅ \/ c ∈ covers.
Proof.
  induction covers as [|c0 covers IH]; intros u c rest.
  - cbn. intros [= _ <- _]. by left.
  - cbn [next_cover]. intros Hrun.
    destruct (py_getitem c0 "caa_id") as [[| |]|]; [| | |done];
      try (destruct (py_getitem c0 "caa_release_mbid"); [|done];
           injection Hrun as _ <- _; right; apply list_elem_of_here).
    destruct (skip_missing g).
    + destruct (IH _ _ _ Hrun) as [->|Hin]; [by left|].
      right. by apply list_elem_of_further.
    + destruct (show_caa_image_for_missing_covers g);
        injection Hrun as _ <- _; right; apply list_elem_of_here.
Qed.

Lemma place_images_member g size tiles : forall covers images out rest,
  place_images g size tiles covers images = (Ok out, rest) ->
  exists new, out = (images ++ new)%list
    /\ Forall (fun img => exists b u c, img = make_image b u c
                                        /\ (c = ∅ \/ c ∈ covers)) new.
Proof.
  induction tiles as [|b tiles IH]; intros covers images out rest.
  - cbn. intros [= <- _]. exists []. by rewrite app_nil_r.
  - cbn [place_images].
    destruct (next_cover g size covers) as [[[u c]|e] rest'] eqn:Hnext; [|done].
    pose proof (next_cover_member _ _ _ _ _ _ Hnext) as Hc.
    destruct (next_cover_suffix _ _ _ _ _ Hnext) as [k ->].
    assert (Hweak : forall new : list image,
              Forall (fun img => exists b u c, img = make_image b u c
                                               /\ (c = ∅ \/ c ∈ rest')) new ->
              Forall (fun img => exists b u c, img = make_image b u c
                                               /\ (c = ∅ \/ c ∈ (k ++ rest')%list)) new).
    { intros new Hnew. eapply Forall_impl; [exact Hnew|].
      intros img (b0 & u0 & c0 & -> & [->|Hin]).
      - exists b0, u0, ∅. auto.
      - exists b0, u0, c0. split; [done|]. right. apply elem_of_app. by right. }
    destruct u as [u|]; intros Hrun;
      destruct (IH _ _ _ _ Hrun) as (new & -> & Hall).
    + exists (make_image b u c :: new). rewrite <- app_assoc. split; [done|].
      constructor; [by exists b, u, c | by apply Hweak].
    + exists new. split; [done | by apply Hweak].
Qed.

Lemma map_result_Forall2 {A B} (f : A -> result B) (l : list A) : forall k,
  map_result f l = Ok k -> Forall2 (fun a b => f a = Ok b) l k.
Proof.
  induction l as [|a l IH]; intros k.
  - cbn. intros [= <-]. constructor.
  - cbn [map_result]. destruct (f a) as [b|e] eqn:Ha; [|done]. cbn [rbind].
    destruct (map_result f l) as [bs|e]; [|done]. cbn [rbind].
    intros [= <-]. constructor; [done | by apply IH].
Qed.

Lemma cover_of_row_fields results m c :
  cover_of_row results m = Ok c ->
  py_get c "entity_mbid" = PyStr m
  /\ exists row, results !! m = Some row
       /\ row !! "title" = Some (py_get c "title")
       /\ row !! "artist" = Some (py_get c "artist")
       /\ c !! "caa_id" = row !! "caa_id"
       /\ c !! "caa_release_mbid" = row !! "caa_release_mbid"
       /\ row_complete row.
Proof.
  unfold cover_of_row, py_getrow, py_getitem.
  destruct (results !! m) as [row|]; [|done]. cbn [rbind].
  destruct (row !! "title") as [t|] eqn:Ht; [|done]. cbn [rbind].
  destruct (row !! "artist") as [a|] eqn:Ha; [|done]. cbn [rbind].
  destruct (row !! "caa_id") as [i|] eqn:Hi; [|done]. cbn [rbind].
  destruct (row !! "caa_release_mbid") as [r|] eqn:Hr; [|done]. cbn [rbind].
  intros [= <-]. split; [reflexivity|]. exists row.
  split; [done|]. split; [by rewrite Ht|]. split; [by rewrite Ha|].
  split; [by rewrite Hi|]. split; [by rewrite Hr|].
  unfold row_complete. rewrite Ht, Ha, Hi, Hr. eauto.
Qed.

(** One run of [load_images]: the artwork store is queried once, for the
    non-empty identifiers, before anything else; the rest does not touch a
    store. *)
Lemma load_images_run
    (lookup : list string -> gmap string (gmap string pyval))
    g mbids tile_addrs layout size log :
  load_images lookup g mbids tile_addrs layout size log =
  (let* covers := map_result (cover_of_row (lookup (omap py_truthy mbids)))
                             (omap py_truthy mbids) in
   (generate_from_caa_ids g covers tile_addrs layout size).1,
   (log ++ [GetCaaIds (mb_db_connection_str g) (omap py_truthy mbids)])%list).
Proof.
  unfold load_images, load_caa_ids, io_bind, io_lift.
  by destruct (map_result _ _).
Qed.

(** X19. Every image that [load_images] returns belongs to one of the
    release identifiers it was given, a non-empty one, and carries the title
    and the artist that the query of the artwork store returned for it; or it
    is a placeholder without identifier, title and artist. *)
Theorem load_images_origin
    (lookup : list string -> gmap string (gmap string pyval))
    g mbids tile_addrs layout size log out log' :
  load_images lookup g mbids tile_addrs layout size log = (Ok out, log') ->
  Forall (fun img =>
            (entity_mbid img = PyNone /\ title img = PyNone /\ artist img = PyNone)
            \/ (exists m row,
                  Some m ∈ mbids /\ m <> ""
                  /\ lookup (omap py_truthy mbids) !! m = Some row
                  /\ entity_mbid img = PyStr m
                  /\ row !! "title" = Some (title img)
                  /\ row !! "artist" = Some (artist img))) out.
Proof.
  rewrite load_images_run.
  destruct (map_result _ _) as [covers|e] eqn:Hcovers; [|done]. cbn [rbind].
  apply map_result_Forall2 in Hcovers.
  destruct (generate_from_caa_ids g covers tile_addrs layout size) as [r rest] eqn:Hrun.
  cbn. intros [= -> _]. unfold generate_from_caa_ids in Hrun.
  destruct (select_addrs g tile_addrs layout) as [addrs|e]; [|done].
  destruct (bounding_boxes g addrs []) as [tiles|e]; [|done].
  destruct (place_images_member _ _ _ _ _ _ _ Hrun) as (new & -> & Hall).
  cbn [app]. eapply Forall_impl; [exact Hall|].
  intros img ([[[x1 y1] x2] y2] & u & c & -> & [->|Hin]); [by left | right].
  apply list_elem_of_lookup in Hin as (i & Hi).
  destruct (Forall2_lookup_r _ _ _ _ _ Hcovers Hi) as (m & Hm & Hrow).
  apply list_elem_of_lookup_2, list_elem_of_omap in Hm as (om & Hom & Htruthy).
  destruct (cover_of_row_fields _ _ _ Hrow) as (Hent & row & Hres & Ht & Ha & _).
  exists m, row. unfold py_truthy in Htruthy.
  destruct om as [s|]; [|done].
  destruct (String.eqb_spec s "") as [|Hne]; [done|]. injection Htruthy as ->.
  cbn. auto 10.
Qed.

Lemma example_row_complete m : row_complete (example_row m).
Proof.
  unfold row_complete, example_row.
  repeat split; eexists; simplify_map_eq; reflexivity.
Qed.

Lemma example_lookup_known l :
  example_lookup l !! "a" = Some (example_row "a")
  /\ example_lookup l !! "b" = Some (example_row "b")
  /\ example_lookup l !! "unknown" = None.
Proof. unfold example_lookup. repeat split; by simplify_map_eq. Qed.

Lemma load_images_origin_witness :
  Forall (fun img =>
            (entity_mbid img = PyNone /\ title img = PyNone /\ artist img = PyNone)
            \/ (exists m row,
                  Some m ∈ [Some "a"; None; Some ""; Some "b"] /\ m <> ""
                  /\ example_lookup (omap py_truthy [Some "a"; None; Some ""; Some "b"])
                       !! m = Some row
                  /\ entity_mbid img = PyStr m
                  /\ row !! "title" = Some (title img)
                  /\ row !! "artist" = Some (artist img)))
    [ {| x := 250; y := 0; width := 249; height := 250;
         url := "https://archive.org/download/mbid-a/mbid-a-5_thumb500.jpg";
         entity_mbid := PyStr "a"; title := PyStr "T"; artist := PyStr "A" |} ].
Proof.
  apply (load_images_origin example_lookup example_generator
           [Some "a"; None; Some ""; Some "b"] (Some ["1"]) None 500 []
           _ [GetCaaIds "" ["a"; "b"]]).
  vm_compute. reflexivity.
Defined.

Lemma map_result_first_error {A B} (f : A -> result B) pre a post e :
  Forall (fun a' => exists b, f a' = Ok b) pre ->
  f a = Raise e ->
  map_result f (pre ++ a :: post) = Raise e.
Proof.
  intros Hpre Ha. induction Hpre as [|a' pre (b & Hb) _ IH].
  - cbn [app map_result]. by rewrite Ha.
  - cbn [app map_result]. by rewrite Hb, IH.
Qed.

Lemma cover_of_row_complete results m row :
  results !! m = Some row -> row_complete row ->
  exists c, cover_of_row results m = Ok c
    /\ is_Some (c !! "caa_id") /\ is_Some (c !! "caa_release_mbid").
Proof.
  intros Hm ([t Ht] & [a Ha] & [i Hi] & [r Hr]).
  unfold cover_of_row, py_getrow, py_getitem.
  repeat (first [rewrite Hm | rewrite Ht | rewrite Ha | rewrite Hi | rewrite Hr];
          cbn [rbind]).
  eexists. split; [reflexivity|]. split; by eexists.
Qed.

(** X20. When the query of the artwork store returns no row for one of the
    non-empty identifiers, [load_images] raises the [KeyError] of the first
    such identifier, after that one query and whatever the addresses and the
    layout are: the candidates are built before the layout is looked at. *)
Theorem load_images_missing_row
    (lookup : list string -> gmap string (gmap string pyval))
    g mbids tile_addrs layout size log pre m post :
  omap py_truthy mbids = (pre ++ m :: post)%list ->
  Forall (fun m' => exists row, lookup (omap py_truthy mbids) !! m' = Some row
                                /\ row_complete row) pre ->
  lookup (omap py_truthy mbids) !! m = None ->
  load_images lookup g mbids tile_addrs layout size log =
    (Raise (KeyError (PyStr m)),
     (log ++ [GetCaaIds (mb_db_connection_str g) (omap py_truthy mbids)])%list).
Proof.
  intros Hsplit Hpre Hm. rewrite load_images_run.
  rewrite Hsplit at 2.
  rewrite (map_result_first_error _ pre m post (KeyError (PyStr m))); [done | |].
  - eapply Forall_impl; [exact Hpre|]. intros m' (row & Hrow & Hcomplete).
    destruct (cover_of_row_complete _ _ _ Hrow Hcomplete) as (c & Hc & _). eauto.
  - unfold cover_of_row, py_getrow. by rewrite Hm.
Qed.

Lemma load_images_missing_row_witness :
  load_images example_lookup example_generator
    [Some "a"; None; Some "unknown"; Some "b"] (Some ["not an address"]) None 500 [] =
  (Raise (KeyError (PyStr "unknown")),
   ([] ++ [GetCaaIds (mb_db_connection_str example_generator)
             (omap py_truthy [Some "a"; None; Some "unknown"; Some "b"])])%list).
Proof.
  apply (load_images_missing_row example_lookup example_generator
           [Some "a"; None; Some "unknown"; Some "b"] (Some ["not an address"]) None 500
           [] ["a"] "unknown" ["b"]).
  - reflexivity.
  - constructor; [|constructor]. exists (example_row "a").
    split; [apply example_lookup_known | apply example_row_complete].
  - apply example_lookup_known.
Defined.

(** X21. When the query of the artwork store returns a complete row for
    every non-empty identifier and the chosen addresses are valid,
    [load_images] returns, after that one query and with at most one image
    per address. *)
Theorem load_images_returns
    (lookup : list string -> gmap string (gmap string pyval))
    g mbids tile_addrs layout size log addrs :
  Forall (fun m => exists row, lookup (omap py_truthy mbids) !! m = Some row
                               /\ row_complete row) (omap py_truthy mbids) ->
  select_addrs g tile_addrs layout = Ok addrs ->
  Forall (fun a => address_valid g a = true) addrs ->
  exists out,
    load_images lookup g mbids tile_addrs layout size log =
      (Ok out,
       (log ++ [GetCaaIds (mb_db_connection_str g) (omap py_truthy mbids)])%list)
    /\ (length out <= length addrs)%nat.
Proof.
  intros Hrows Hsel Hvalid. rewrite load_images_run.
  assert (Hcovers : exists covers,
            map_result (cover_of_row (lookup (omap py_truthy mbids)))
                       (omap py_truthy mbids) = Ok covers
            /\ Forall (fun c => is_Some (c !! "caa_id")
                                /\ is_Some (c !! "caa_release_mbid")) covers).
  { remember (lookup (omap py_truthy mbids)) as results eqn:Hresults.
    clear Hresults. induction Hrows as [|m l (row & Hrow & Hcomplete) _ (covers & Hmap & Hall)].
    - exists []. split; [done | constructor].
    - destruct (cover_of_row_complete _ _ _ Hrow Hcomplete) as (c & Hc & Hkeys).
      exists (c :: covers). cbn [map_result]. rewrite Hc, Hmap.
      split; [done | by constructor]. }
  destruct Hcovers as (covers & -> & Hkeys). cbn [rbind].
  destruct (generate_from_caa_ids g covers tile_addrs layout size) as [r rest] eqn:Hrun.
  destruct r as [out|e].
  - exists out. split; [done|].
    unfold generate_from_caa_ids in Hrun. rewrite Hsel in Hrun.
    destruct (bounding_boxes g addrs []) as [tiles|e] eqn:Hboxes; [|done].
    destruct (place_images_shape _ _ _ _ _ _ _ Hrun) as [_ Hout].
    destruct (Hout out eq_refl) as (new & -> & Hsub).
    destruct (bounding_boxes_Forall2 _ _ _ _ Hboxes) as (tiles' & -> & H2).
    cbn [app] in *. apply sublist_length in Hsub.
    rewrite !length_fmap in Hsub. by rewrite (Forall2_length _ _ _ H2).
  - exfalso. unfold generate_from_caa_ids in Hrun. rewrite Hsel in Hrun.
    destruct (bounding_boxes g addrs []) as [tiles|e'] eqn:Hboxes.
    + destruct (place_images_raises _ _ _ _ _ _ _ Hrun) as (c & key & Hin & Hkey & _).
      rewrite Forall_forall in Hkeys. destruct (Hkeys c Hin) as [[? Hid] [? Hmbid]].
      destruct Hkey as [[_ Hnone]|(_ & Hnone & _)]; congruence.
    + destruct (bounding_boxes_raises _ _ _ _ Hboxes) as (addr & Hin & Hbad & _).
      rewrite Forall_forall in Hvalid. rewrite (Hvalid addr Hin) in Hbad. done.
Qed.

Lemma load_images_returns_witness :
  exists out,
    load_images example_lookup example_generator [Some "a"; None] None (Some 0) 500 []
    = (Ok out,
       ([] ++ [GetCaaIds (mb_db_connection_str example_generator)
                 (omap py_truthy [Some "a"; None])])%list)
    /\ (length out <= length ["0"; "1"; "2"; "3"])%nat.
Proof.
  apply (load_images_returns example_lookup example_generator [Some "a"; None]
           None (Some 0) 500 [] ["0"; "1"; "2"; "3"]).
  - constructor; [|constructor]. exists (example_row "a").
    split; [apply example_lookup_known | apply example_row_complete].
  - reflexivity.
  - repeat constructor.
Defined.

(** ** The protocol of the stats fetch *)



(** ** Covers made from release statistics *)

Lemma default_layout_length g addrs :
  select_addrs g None None = Ok addrs ->
  Z.of_nat (length addrs) = dimension g * dimension g.
Proof.
  unfold select_addrs.
  destruct (GRID_TILE_DESIGNS !! dimension g) as [designs|] eqn:Hd; [|done].
  intros Hidx.
  assert (Hall : forallb (fun '(d, designs) =>
                   match py_list_index designs 0 with
                   | Ok design => Z.of_nat (length design) =? d * d
                   | Raise _ => true
                   end) catalog_entries = true) by (vm_compute; reflexivity).
  rewrite forallb_forall in Hall.
  apply elem_of_map_to_list, list_elem_of_In, Hall in Hd.
  rewrite Hidx in Hd. lia.
Qed.

Lemma download_user_stats_returns (members : list string)
    (users : string -> option (gmap string pyval))
    (stats_store : pyval -> string -> string -> option user_stats)
    entity user_name time_range log records total log' :
  download_user_stats members users stats_store entity user_name time_range log =
    (Ok (records, total), log') ->
  (length records <= 100)%nat
  /\ exists user_id,
       log' = (log ++ [GetByMbId user_name; StatsGet user_id entity time_range])%list.
Proof.
  unfold download_user_stats.
  destruct (negb _); [done|]. destruct (negb _); [done|].
  unfold io_bind, db_user_get_by_mb_id, db_stats_get, io_lift, io_raise, io_ret.
  destruct (users user_name); [|done].
  destruct (py_getitem _ "id") as [user_id|]; [|done].
  destruct (stats_store _ _ _); [|done].
  intros [= <- _ <-]. split.
  - rewrite length_take. unfold NUMBER_OF_STATS. lia.
  - exists user_id. by rewrite <- app_assoc.
Qed.

Lemma load_images_length
    (lookup : list string -> gmap string (gmap string pyval))
    g mbids tile_addrs layout size log out log' :
  load_images lookup g mbids tile_addrs layout size log = (Ok out, log') ->
  log' = (log ++ [GetCaaIds (mb_db_connection_str g) (omap py_truthy mbids)])%list
  /\ exists addrs, select_addrs g tile_addrs layout = Ok addrs
                   /\ (length out <= length addrs)%nat.
Proof.
  rewrite load_images_run.
  destruct (map_result _ _) as [covers|e]; [|done]. cbn [rbind].
  destruct (generate_from_caa_ids g covers tile_addrs layout size) as [r rest] eqn:Hrun.
  cbn. intros [= -> <-]. split; [done|]. unfold generate_from_caa_ids in Hrun.
  destruct (select_addrs g tile_addrs layout) as [addrs|e]; [|done].
  destruct (bounding_boxes g addrs []) as [tiles|e] eqn:Hboxes; [|done].
  destruct (place_images_shape _ _ _ _ _ _ _ Hrun) as [_ Hout].
  destruct (Hout out eq_refl) as (new & -> & Hsub).
  destruct (bounding_boxes_Forall2 _ _ _ _ Hboxes) as (tiles' & -> & H2).
  exists addrs. split; [done|]. cbn [app] in *. apply sublist_length in Hsub.
  rewrite !length_fmap in Hsub. by rewrite (Forall2_length _ _ _ H2).
Qed.

(** X23. When [create_release_stats_cover] returns, three store calls were
    made and no other: the user lookup and the stats lookup of the fetch for
    "releases", then one query of the artwork store for the non-empty release
    identifiers of the fetched releases. The releases and num_releases are
    what the fetch returned; the images are those of [load_images] for these
    identifiers with the default layout, so there are at most
    dimension * dimension of them, for at most 100 releases; the metadata
    carries the user name, the date and the label of the time range. *)
Theorem create_release_stats_cover_spec (members : list string)
    (users : string -> option (gmap string pyval))
    (stats_store : pyval -> string -> string -> option user_stats)
    (today : string)
    (lookup : list string -> gmap string (gmap string pyval))
    (release_mbid : stat_record -> option string)
    g user_name time_range log images releases md log' :
  create_release_stats_cover members users stats_store today lookup release_mbid
    g user_name time_range log = (Ok (images, releases, md), log') ->
  exists user_id,
    let log1 := (log ++ [GetByMbId user_name;
                         StatsGet user_id "releases" time_range])%list in
    download_user_stats members users stats_store "releases" user_name time_range log =
      (Ok (releases, num_releases md), log1)
    /\ load_images lookup g (map release_mbid releases) None None 500 log1 =
         (Ok images, log')
    /\ log' = (log ++ [GetByMbId user_name;
                       StatsGet user_id "releases" time_range;
                       GetCaaIds (mb_db_connection_str g)
                         (omap py_truthy (map release_mbid releases))])%list
    /\ release_user_name md = user_name /\ release_date md = today
    /\ time_range_to_english !! time_range = Some (release_time_range md)
    /\ (length releases <= 100)%nat
    /\ Z.of_nat (length images) <= dimension g * dimension g.
Proof.
  unfold create_release_stats_cover, io_bind.
  destruct (download_user_stats members users stats_store "releases" user_name
              time_range log) as [[[rels total]|e] log1] eqn:Hdl; [|done].
  destruct (load_images lookup g (map release_mbid rels) None None 500 log1)
    as [[imgs|e] log2] eqn:Himgs; [|done].
  unfold io_lift, english_time_range.
  destruct (time_range_to_english !! time_range) as [english|] eqn:Heng; [|done].
  unfold io_ret. intros [= <- <- <- <-]. cbn.
  destruct (download_user_stats_returns _ _ _ _ _ _ _ _ _ _ Hdl)
    as (Hlen & user_id & ->).
  destruct (load_images_length _ _ _ _ _ _ _ _ _ Himgs)
    as (Hlog & addrs & Hsel & Hout).
  exists user_id.
  split; [done|]. split; [done|].
  split; [by rewrite Hlog, <- app_assoc|].
  split; [done|]. split; [done|]. split; [done|]. split; [done|].
  rewrite <- (default_layout_length g addrs Hsel). lia.
Qed.

Lemma create_release_stats_cover_spec_witness :
  exists images md user_id,
    let log1 := ([] ++ [GetByMbId "rob"; StatsGet user_id "releases" "week"])%list in
    download_user_stats ["week"] example_users example_stats "releases" "rob" "week" []
    = (Ok ([example_release], num_releases md), log1)
    /\ load_images example_lookup example_generator
         (map example_release_mbid [example_release]) None None 500 log1
       = (Ok images,
          [GetByMbId "rob"; StatsGet (PyInt 7) "releases" "week"; GetCaaIds "" ["a"]])
    /\ [GetByMbId "rob"; StatsGet (PyInt 7) "releases" "week"; GetCaaIds "" ["a"]]
       = ([] ++ [GetByMbId "rob"; StatsGet user_id "releases" "week";
                 GetCaaIds (mb_db_connection_str example_generator)
                   (omap py_truthy (map example_release_mbid [example_release]))])%list
    /\ release_user_name md = "rob" /\ release_date md = "2024-05-01"
    /\ time_range_to_english !! "week" = Some (release_time_range md)
    /\ (length [example_release] <= 100)%nat
    /\ Z.of_nat (length images) <= dimension example_generator * dimension example_generator.
Proof.
  do 2 eexists.
  apply (create_release_stats_cover_spec ["week"] example_users example_stats
           "2024-05-01" example_lookup example_release_mbid example_generator
           "rob" "week" []).
  vm_compute. reflexivity.
Defined.

Lemma load_images_layout_error
    (lookup : list string -> gmap string (gmap string pyval))
    g mbids tile_addrs layout size log e :
  Forall (fun m => exists row, lookup (omap py_truthy mbids) !! m = Some row
                               /\ row_complete row) (omap py_truthy mbids) ->
  select_addrs g tile_addrs layout = Raise e ->
  load_images lookup g mbids tile_addrs layout size log =
    (Raise e,
     (log ++ [GetCaaIds (mb_db_connection_str g) (omap py_truthy mbids)])%list).
Proof.
  intros Hrows Hsel. rewrite load_images_run.
  assert (Hcovers : exists covers,
            map_result (cover_of_row (lookup (omap py_truthy mbids)))
                       (omap py_truthy mbids) = Ok covers).
  { remember (lookup (omap py_truthy mbids)) as results eqn:Hresults.
    clear Hresults. induction Hrows as [|m l (row & Hrow & Hcomplete) _ (covers & Hmap)].
    - by exists [].
    - destruct (cover_of_row_complete _ _ _ Hrow Hcomplete) as (c & Hc & _).
      exists (c :: covers). cbn [map_result]. by rewrite Hc, Hmap. }
  destruct Hcovers as (covers & ->). cbn [rbind].
  unfold generate_from_caa_ids. by rewrite Hsel.
Qed.

(** X24. Errors of the grid cover come early or late: an invalid time range
    stops it, and the release cover, before any store is called; a layout
    that the catalog does not have is only found out after the stats were
    fetched and the artwork store was queried, and the error of the catalog
    lookup is then raised with the two store calls of the fetch and the
    query of the artwork store made. *)
Theorem create_grid_stats_cover_errors (members : list string)
    (users : string -> option (gmap string pyval))
    (stats_store : pyval -> string -> string -> option user_stats)
    (today : string)
    (lookup : list string -> gmap string (gmap string pyval))
    (release_mbid : stat_record -> option string)
    g user_name time_range layout log :
  (time_range ∉ members ->
   create_grid_stats_cover members users stats_store lookup release_mbid
     g user_name time_range layout log =
     (Raise (ValueError "Invalid date range given."), log)
   /\ create_release_stats_cover members users stats_store today lookup release_mbid
        g user_name time_range log =
      (Raise (ValueError "Invalid date range given."), log))
  /\ (forall releases total log' e,
        download_user_stats members users stats_store "releases" user_name
          time_range log = (Ok (releases, total), log') ->
        Forall (fun m => exists row,
                  lookup (omap py_truthy (map release_mbid releases)) !! m = Some row
                  /\ row_complete row)
               (omap py_truthy (map release_mbid releases)) ->
        select_addrs g None layout = Raise e ->
        create_grid_stats_cover members users stats_store lookup release_mbid
          g user_name time_range layout log =
          (Raise e,
           (log' ++ [GetCaaIds (mb_db_connection_str g)
                       (omap py_truthy (map release_mbid releases))])%list)
        /\ exists user_id,
             log' = (log ++ [GetByMbId user_name;
                             StatsGet user_id "releases" time_range])%list).
Proof.
  split.
  - intros Hbad.
    assert (Hdl : download_user_stats members users stats_store "releases" user_name
                    time_range log = (Raise (ValueError "Invalid date range given."), log)).
    { unfold download_user_stats. by rewrite (bool_decide_eq_false_2 _ Hbad). }
    unfold create_grid_stats_cover, create_release_stats_cover, io_bind.
    by rewrite Hdl.
  - intros releases total log' e Hdl Hrows Hsel. split.
    + unfold create_grid_stats_cover, io_bind. rewrite Hdl.
      by rewrite (load_images_layout_error lookup g _ None layout 500 log' e Hrows Hsel).
    + by destruct (download_user_stats_returns _ _ _ _ _ _ _ _ _ _ Hdl) as [_ Huser].
Qed.

Lemma create_grid_stats_cover_errors_witness :
  create_grid_stats_cover ["week"] example_users example_stats example_lookup
    example_release_mbid example_generator "rob" "fortnight" (Some 0) [] =
    (Raise (ValueError "Invalid date range given."), [])
  /\ create_grid_stats_cover ["week"] example_users example_stats example_lookup
       example_release_mbid example_generator "rob" "week" (Some 1) [] =
     (Raise (IndexError "list index out of range"),
      ([GetByMbId "rob"; StatsGet (PyInt 7) "releases" "week"]
       ++ [GetCaaIds (mb_db_connection_str example_generator)
             (omap py_truthy (map example_release_mbid [example_release]))])%list).
Proof.
  split.
  - apply (create_grid_stats_cover_errors ["week"] example_users example_stats
             "2024-05-01" example_lookup example_release_mbid example_generator
             "rob" "fortnight" (Some 0) []).
    intros H. apply elem_of_cons in H as [H|H]; [discriminate H|].
    by apply elem_of_nil in H.
  - apply (proj2 (create_grid_stats_cover_errors ["week"] example_users example_stats
                    "2024-05-01" example_lookup example_release_mbid example_generator
                    "rob" "week" (Some 1) []) [example_release] 1).
    + vm_compute. reflexivity.
    + constructor; [|constructor]. exists (example_row "a").
      split; [apply example_lookup_known | apply example_row_complete].
    + reflexivity.
Defined.
